(** * The cryptographic core of mlspp: ciphersuites, HPKE keys, signatures

    A shallow embedding of [src/crypto.cpp].  Byte strings are lists of
    [Byte.byte]; [size_t] and [uint16_t] are integers in [Z] with the
    wrap-around written out; a C++ exception is the [Err] branch of [result].
    The primitive library (KEM, KDF, AEAD, Digest, Signature) is abstract in
    the source, behind the interfaces of [hpke::]; here it is the class
    [Primitives]. *)

From Stdlib Require Import ZArith List String Ascii Bool Lia.
From Stdlib Require Import Strings.Byte.
Import ListNotations.
Local Open Scope Z_scope.

(** ** Byte strings *)

Definition bytes := list byte.

(** The octet holding [n mod 256]. *)
Definition u8 (n : Z) : byte :=
  match Byte.of_N (Z.to_N (n mod 256)) with
  | Some b => b
  | None => x00
  end.

Definition byte_val (b : byte) : Z := Z.of_N (Byte.to_N b).

Definition size (b : bytes) : Z := Z.of_nat (List.length b).

(** Modelled from the spec: [from_ascii] of the byte-buffer utilities, which
    yields the octets of a US-ASCII string without a trailing NUL. *)
Definition from_ascii (s : string) : bytes := list_byte_of_string s.

Definition xor_byte (a b : byte) : byte :=
  u8 (Z.lxor (byte_val a) (byte_val b)).

Fixpoint xor_bytes (a b : bytes) : bytes :=
  match a, b with
  | x :: a', y :: b' => xor_byte x y :: xor_bytes a' b'
  | _, _ => []
  end.

Fixpoint bytes_eqb (a b : bytes) : bool :=
  match a, b with
  | [], [] => true
  | x :: a', y :: b' => Byte.eqb x y && bytes_eqb a' b'
  | _, _ => false
  end.

(** ** The TLS presentation codec *)

Module tls.

  (** Modelled from the spec: fixed-width unsigned integers travel in network
      byte order.  [uint w n] is the [w]-octet big-endian form of [n]. *)
Fixpoint uint (w : nat) (n : Z) : bytes :=
    match w with
    | O => []
    | S w' => u8 (Z.shiftr n (8 * Z.of_nat w')) :: uint w' n
    end.

Definition uint16 (n : Z) : bytes := uint 2 n.

  (** Modelled from the spec: the variable-length integer of MLS v1 that
      prefixes every vector: one octet below 2^6, two octets tagged [01]
      below 2^14, four octets tagged [10] above that.  MLS v1 has no prefix
      for a length of 2^30 or more; the four-octet form then carries the low
      30 bits, and nothing proved here looks at that range. *)
Definition varint (n : Z) : bytes :=
    if n <? 64 then uint 1 n
    else if n <? 16384 then uint 2 (Z.lor 0x4000 n)
    else uint 4 (Z.lor 0x80000000 (n mod 2 ^ 30)).

  (** Modelled from the spec: a variable-length vector [opaque<V>] is its
      length prefix followed by the payload. *)
Definition opaque (b : bytes) : bytes := varint (size b) ++ b.

  (** Inverse of [uint], for reading a field back. *)
Definition read_uint (b : bytes) : Z :=
    fold_left (fun acc x => acc * 256 + byte_val x) b 0.

End tls.

(** ** Failures *)

(** The exceptions of the model.  [src/crypto.cpp] raises
    [InvalidParameterError] only, with the message given at the [throw]; the
    codec raises [TLSDecodeError].  The names of the specification's error
    table are roles, not types: which failure plays a role is told by where
    it is raised and by its message. *)
Inductive error : Type :=
| InvalidParameterError (what : string)
| TLSDecodeError.

Inductive result (A : Type) : Type :=
| Ok (a : A)
| Err (e : error).

Arguments Ok {A} a.
Arguments Err {A} e.

Definition bind {A B : Type} (c : result A) (k : A -> result B) : result B :=
  match c with
  | Ok a => k a
  | Err e => Err e
  end.

Notation "x <- c ;; k" := (bind c (fun x => k))
  (at level 61, c at next level, right associativity).

(** ** Primitive interfaces of [hpke::] *)

Module KEM.
Inductive ID : Type :=
  | DHKEM_P256_SHA256
  | DHKEM_P521_SHA512
  | DHKEM_X25519_SHA256
  | DHKEM_X448_SHA512.

  (** [generate_key_pair] and [encap] draw from the system random generator;
      the octets drawn are their first argument. *)
Record t (SK PK : Type) : Type := {
    generate_key_pair : bytes -> SK;
    derive_key_pair : bytes -> SK;
    public_key : SK -> PK;
    serialize : PK -> bytes;
    deserialize : bytes -> result PK;
    serialize_private : SK -> bytes;
    deserialize_private : bytes -> result SK;
    encap : bytes -> PK -> bytes * bytes;
    decap : bytes -> SK -> bytes
  }.
Arguments generate_key_pair {SK PK}.
Arguments derive_key_pair {SK PK}.
Arguments public_key {SK PK}.
Arguments serialize {SK PK}.
Arguments deserialize {SK PK}.
Arguments serialize_private {SK PK}.
Arguments deserialize_private {SK PK}.
Arguments encap {SK PK}.
Arguments decap {SK PK}.
End KEM.

Module KDF.
Inductive ID : Type :=
  | HKDF_SHA256
  | HKDF_SHA512.

Record t : Type := {
    extract : bytes -> bytes -> bytes;
    expand : bytes -> bytes -> Z -> bytes;
    hash_size : Z
  }.
End KDF.

Module AEAD.
Inductive ID : Type :=
  | AES_128_GCM
  | AES_256_GCM
  | CHACHA20_POLY1305.

Record t : Type := {
    seal : bytes -> bytes -> bytes -> bytes -> bytes;
    open : bytes -> bytes -> bytes -> bytes -> option bytes;
    key_size : Z;
    nonce_size : Z
  }.
End AEAD.

Module Digest.
Inductive ID : Type :=
  | SHA256
  | SHA512.

Record t : Type := {
    hash : bytes -> bytes;
    hash_size : Z
  }.
End Digest.

Module Signature.
Inductive ID : Type :=
  | P256_SHA256
  | P384_SHA384
  | P521_SHA512
  | Ed25519
  | Ed448
  | RSA_SHA256.

Record t (SK PK : Type) : Type := {
    generate_key_pair : bytes -> SK;
    derive_key_pair : bytes -> SK;
    public_key : SK -> PK;
    serialize : PK -> bytes;
    deserialize : bytes -> result PK;
    serialize_private : SK -> bytes;
    deserialize_private : bytes -> result SK;
    sign : bytes -> SK -> bytes;
    verify : bytes -> bytes -> PK -> bool
  }.
Arguments generate_key_pair {SK PK}.
Arguments derive_key_pair {SK PK}.
Arguments public_key {SK PK}.
Arguments serialize {SK PK}.
Arguments deserialize {SK PK}.
Arguments serialize_private {SK PK}.
Arguments deserialize_private {SK PK}.
Arguments sign {SK PK}.
Arguments verify {SK PK}.
End Signature.

(** The key material the HPKE key schedule hands to a context. *)
Record KeyMaterial : Type := {
  km_key : bytes;
  km_base_nonce : bytes;
  km_exporter_secret : bytes
}.

(** What the primitive library provides: a handle for every algorithm ID
    ([KEM::get<id>()] and its siblings), and the two labelled constructions of
    RFC 9180 that HPKE builds from the KDF, each for a triple of IDs. *)
Class Primitives : Type := {
  KEMPrivateKey : Type;
  KEMPublicKey : Type;
  SigPrivateKey : Type;
  SigPublicKey : Type;
  kem_get : KEM.ID -> KEM.t KEMPrivateKey KEMPublicKey;
  kdf_get : KDF.ID -> KDF.t;
  aead_get : AEAD.ID -> AEAD.t;
  digest_get : Digest.ID -> Digest.t;
  sig_get : Signature.ID -> Signature.t SigPrivateKey SigPublicKey;
  key_schedule : KEM.ID * KDF.ID * AEAD.ID -> bytes -> bytes -> KeyMaterial;
  labeled_expand :
    KEM.ID * KDF.ID * AEAD.ID -> bytes -> string -> bytes -> Z -> bytes
}.

(** ** HPKE in base mode *)

Module HPKE.

  (** [HPKE(kem_id, kdf_id, aead_id)]: the three handles, named by their IDs. *)
Record t : Type := {
    kem_id : KEM.ID;
    kdf_id : KDF.ID;
    aead_id : AEAD.ID
  }.

Definition ids (h : t) : KEM.ID * KDF.ID * AEAD.ID :=
    (kem_id h, kdf_id h, aead_id h).

  (** Modelled from the spec: a context holds the key, the base nonce, the
      sequence counter and the exporter secret. *)
Record Context : Type := {
    suite : t;
    key : bytes;
    base_nonce : bytes;
    sequence : Z;
    exporter_secret : bytes
  }.

  (** Modelled from the spec: the counter is monotonic and the context is
      spent once the counter would pass the largest 64-bit value. *)
Definition advance (c : Context) : option Context :=
    if sequence c <? 2 ^ 64 - 1
    then Some {| suite := suite c; key := key c; base_nonce := base_nonce c;
                 sequence := sequence c + 1;
                 exporter_secret := exporter_secret c |}
    else None.

  (** Modelled from the spec: the sequence number is XORed into the base
      nonce. *)
Definition compute_nonce (c : Context) : bytes :=
    xor_bytes (base_nonce c)
              (tls.uint (List.length (base_nonce c)) (sequence c)).

Section Operations.
Context `{P : Primitives}.

Definition kem (h : t) : KEM.t KEMPrivateKey KEMPublicKey :=
      kem_get (kem_id h).
Definition kdf (h : t) : KDF.t := kdf_get (kdf_id h).
Definition aead (h : t) : AEAD.t := aead_get (aead_id h).

    (** Modelled from the spec: the key schedule of mode 0 with empty psk and
        psk_id turns the shared secret and [info] into a fresh context. *)
Definition schedule (h : t) (shared info : bytes) : Context :=
      let km := key_schedule (ids h) shared info in
      {| suite := h; key := km_key km; base_nonce := km_base_nonce km;
         sequence := 0; exporter_secret := km_exporter_secret km |}.

    (** Modelled from the spec: [setup_base_s] performs [encap], then the key
        schedule; [rnd] is the randomness [encap] draws. *)
Definition setup_base_s (h : t) (rnd : bytes) (pkR : KEMPublicKey)
        (info : bytes) : bytes * Context :=
      let '(enc, shared) := KEM.encap (kem h) rnd pkR in
      (enc, schedule h shared info).

    (** Modelled from the spec: [setup_base_r] is the symmetric receive. *)
Definition setup_base_r (h : t) (enc : bytes) (skR : KEMPrivateKey)
        (info : bytes) : Context :=
      schedule h (KEM.decap (kem h) enc skR) info.

    (** Modelled from the spec: [seal] and [open] of a context, with the
        context as it is afterwards. *)
Definition seal (c : Context) (aad pt : bytes) : bytes * option Context :=
      (AEAD.seal (aead (suite c)) (key c) (compute_nonce c) aad pt, advance c).

Definition open (c : Context) (aad ct : bytes)
        : option bytes * option Context :=
      match AEAD.open (aead (suite c)) (key c) (compute_nonce c) aad ct with
      | Some pt => (Some pt, advance c)
      | None => (None, Some c)
      end.

    (** Modelled from the spec: [export(label, L)] is
        [LabeledExpand(exporter_secret, "sec", label, L)]. *)
Definition do_export (c : Context) (label : bytes) (L : Z) : bytes :=
      labeled_expand (ids (suite c)) (exporter_secret c) "sec" label L.
End Operations.

End HPKE.

(** ** Signature schemes *)

Inductive SignatureScheme : Type :=
| ecdsa_secp256r1_sha256
| ecdsa_secp384r1_sha384
| ecdsa_secp521r1_sha512
| ed25519
| ed448
| rsa_pkcs1_sha256.

(** [tls_signature_scheme].  The [default:] branch of the source is for a
    value outside the enumeration, which [Signature.ID] does not have. *)
Definition tls_signature_scheme (id : Signature.ID) : result SignatureScheme :=
  match id with
  | Signature.P256_SHA256 => Ok ecdsa_secp256r1_sha256
  | Signature.P384_SHA384 => Ok ecdsa_secp384r1_sha384
  | Signature.P521_SHA512 => Ok ecdsa_secp521r1_sha512
  | Signature.Ed25519 => Ok ed25519
  | Signature.Ed448 => Ok ed448
  | Signature.RSA_SHA256 => Ok rsa_pkcs1_sha256
  end.

(** ** CipherSuites and details *)

(** [CipherSuite::Ciphers]: the bundle of handles, each named by its ID. *)
Module Ciphers.
Record t : Type := {
    hpke : HPKE.t;
    digest : Digest.ID;
    sig : Signature.ID
  }.
End Ciphers.

(** [struct HKDFLabel], with [TLS_SERIALIZABLE(length, label, context)]. *)
Module HKDFLabel.
Record t : Type := {
    length : Z;
    label : bytes;
    context : bytes
  }.

  (** Modelled from the spec: a struct is marshalled as the concatenation of
      its members' encodings in declaration order. *)
Definition marshal (h : t) : bytes :=
    tls.uint16 (length h) ++ tls.opaque (label h) ++ tls.opaque (context h).
End HKDFLabel.

(** The types [make_reference] is instantiated at. *)
Inductive RefType : Type :=
| KeyPackage
| MLSAuthenticatedContent.

Module CipherSuite.

  (** [enum class ID : uint16_t].  Modelled from the spec: the codes of the
      seven named values. *)
Definition ID : Type := Z.
Definition unknown : ID := 0x0000.
Definition X25519_AES128GCM_SHA256_Ed25519 : ID := 0x0001.
Definition P256_AES128GCM_SHA256_P256 : ID := 0x0002.
Definition X25519_CHACHA20POLY1305_SHA256_Ed25519 : ID := 0x0003.
Definition X448_AES256GCM_SHA512_Ed448 : ID := 0x0004.
Definition P521_AES256GCM_SHA512_P521 : ID := 0x0005.
Definition X448_CHACHA20POLY1305_SHA512_Ed448 : ID := 0x0006.

Record t : Type := { id : ID }.

  (** [CipherSuite::CipherSuite()]. *)
Definition default : t := {| id := unknown |}.

Definition signature_scheme (s : t) : result SignatureScheme :=
    if (id s =? X25519_AES128GCM_SHA256_Ed25519)
       || (id s =? X25519_CHACHA20POLY1305_SHA256_Ed25519)
    then Ok ed25519
    else if id s =? P256_AES128GCM_SHA256_P256
    then Ok ecdsa_secp256r1_sha256
    else if (id s =? X448_AES256GCM_SHA512_Ed448)
            || (id s =? X448_CHACHA20POLY1305_SHA512_Ed448)
    then Ok ed448
    else if id s =? P521_AES256GCM_SHA512_P521
    then Ok ecdsa_secp521r1_sha512
    else Err (InvalidParameterError "Unsupported algorithm").

Definition ciphers_X25519_AES128GCM_SHA256_Ed25519 : Ciphers.t :=
    {| Ciphers.hpke := {| HPKE.kem_id := KEM.DHKEM_X25519_SHA256;
                          HPKE.kdf_id := KDF.HKDF_SHA256;
                          HPKE.aead_id := AEAD.AES_128_GCM |};
       Ciphers.digest := Digest.SHA256;
       Ciphers.sig := Signature.Ed25519 |}.

Definition ciphers_P256_AES128GCM_SHA256_P256 : Ciphers.t :=
    {| Ciphers.hpke := {| HPKE.kem_id := KEM.DHKEM_P256_SHA256;
                          HPKE.kdf_id := KDF.HKDF_SHA256;
                          HPKE.aead_id := AEAD.AES_128_GCM |};
       Ciphers.digest := Digest.SHA256;
       Ciphers.sig := Signature.P256_SHA256 |}.

Definition ciphers_X25519_CHACHA20POLY1305_SHA256_Ed25519 : Ciphers.t :=
    {| Ciphers.hpke := {| HPKE.kem_id := KEM.DHKEM_X25519_SHA256;
                          HPKE.kdf_id := KDF.HKDF_SHA256;
                          HPKE.aead_id := AEAD.CHACHA20_POLY1305 |};
       Ciphers.digest := Digest.SHA256;
       Ciphers.sig := Signature.Ed25519 |}.

Definition ciphers_X448_AES256GCM_SHA512_Ed448 : Ciphers.t :=
    {| Ciphers.hpke := {| HPKE.kem_id := KEM.DHKEM_X448_SHA512;
                          HPKE.kdf_id := KDF.HKDF_SHA512;
                          HPKE.aead_id := AEAD.AES_256_GCM |};
       Ciphers.digest := Digest.SHA512;
       Ciphers.sig := Signature.Ed448 |}.

Definition ciphers_P521_AES256GCM_SHA512_P521 : Ciphers.t :=
    {| Ciphers.hpke := {| HPKE.kem_id := KEM.DHKEM_P521_SHA512;
                          HPKE.kdf_id := KDF.HKDF_SHA512;
                          HPKE.aead_id := AEAD.AES_256_GCM |};
       Ciphers.digest := Digest.SHA512;
       Ciphers.sig := Signature.P521_SHA512 |}.

Definition ciphers_X448_CHACHA20POLY1305_SHA512_Ed448 : Ciphers.t :=
    {| Ciphers.hpke := {| HPKE.kem_id := KEM.DHKEM_X448_SHA512;
                          HPKE.kdf_id := KDF.HKDF_SHA512;
                          HPKE.aead_id := AEAD.CHACHA20_POLY1305 |};
       Ciphers.digest := Digest.SHA512;
       Ciphers.sig := Signature.Ed448 |}.

Definition get (s : t) : result Ciphers.t :=
    if id s =? unknown
    then Err (InvalidParameterError "Uninitialized ciphersuite")
    else if id s =? X25519_AES128GCM_SHA256_Ed25519
    then Ok ciphers_X25519_AES128GCM_SHA256_Ed25519
    else if id s =? P256_AES128GCM_SHA256_P256
    then Ok ciphers_P256_AES128GCM_SHA256_P256
    else if id s =? X25519_CHACHA20POLY1305_SHA256_Ed25519
    then Ok ciphers_X25519_CHACHA20POLY1305_SHA256_Ed25519
    else if id s =? X448_AES256GCM_SHA512_Ed448
    then Ok ciphers_X448_AES256GCM_SHA512_Ed448
    else if id s =? P521_AES256GCM_SHA512_P521
    then Ok ciphers_P521_AES256GCM_SHA512_P521
    else if id s =? X448_CHACHA20POLY1305_SHA512_Ed448
    then Ok ciphers_X448_CHACHA20POLY1305_SHA512_Ed448
    else Err (InvalidParameterError "Unsupported ciphersuite").

Definition all_supported_suites : list ID :=
    [ X25519_AES128GCM_SHA256_Ed25519;
      P256_AES128GCM_SHA256_P256;
      X25519_CHACHA20POLY1305_SHA256_Ed25519;
      X448_AES256GCM_SHA512_Ed448;
      P521_AES256GCM_SHA512_P521;
      X448_CHACHA20POLY1305_SHA512_Ed448 ].

  (** [reference_label<KeyPackage>] and
      [reference_label<MLSAuthenticatedContent>]. *)
Definition reference_label (T : RefType) : bytes :=
    match T with
    | KeyPackage => from_ascii "MLS 1.0 KeyPackage Reference"
    | MLSAuthenticatedContent => from_ascii "MLS 1.0 Proposal Reference"
    end.

  (** Modelled from the spec: the width of a reference, 16 octets. *)
Definition reference_size : Z := 16.

Section Operations.
Context `{P : Primitives}.

    (** Modelled from the spec: the derived attributes [hpke()], [digest()],
        [sig()] and [secret_size()] of the class declaration read the bundle
        that [get()] returns. *)
Definition hpke (s : t) : result HPKE.t :=
      c <- get s ;; Ok (Ciphers.hpke c).

Definition digest (s : t) : result Digest.t :=
      c <- get s ;; Ok (digest_get (Ciphers.digest c)).

Definition sig (s : t)
        : result (Signature.t SigPrivateKey SigPublicKey) :=
      c <- get s ;; Ok (sig_get (Ciphers.sig c)).

Definition secret_size (s : t) : result Z :=
      c <- get s ;; Ok (Digest.hash_size (digest_get (Ciphers.digest c))).

    (** [expand_with_label]; [length] is a [size_t].  The calls to [Log] leave
        the result alone and are left out. *)
Definition expand_with_label (s : t) (secret : bytes) (label : string)
        (context : bytes) (length : Z) : result bytes :=
      let mls_label := from_ascii ("mls10 " ++ label) in
      let length16 := length mod 2 ^ 16 in
      let label_bytes :=
        HKDFLabel.marshal {| HKDFLabel.length := length16;
                             HKDFLabel.label := mls_label;
                             HKDFLabel.context := context |} in
      c <- get s ;;
      Ok (KDF.expand (HPKE.kdf (Ciphers.hpke c)) secret label_bytes length).

Definition derive_secret (s : t) (secret : bytes) (label : string)
        : result bytes :=
      n <- secret_size s ;;
      expand_with_label s secret label [] n.

    (** Modelled from the spec: [make_reference], a template of the class
        declaration; [marshaled] is [marshal(value)] for a value of type
        [T]. *)
Definition make_reference (s : t) (T : RefType) (marshaled : bytes)
        : result bytes :=
      h <- hpke s ;;
      let extracted := KDF.extract (HPKE.kdf h) [] marshaled in
      h' <- hpke s ;;
      Ok (KDF.expand (HPKE.kdf h') extracted (reference_label T)
                     reference_size).
End Operations.

End CipherSuite.

(** ** HPKEPublicKey and HPKEPrivateKey *)

Module HPKECiphertext.
Record t : Type := {
  kem_output : bytes;
  ciphertext : bytes
}.
End HPKECiphertext.

Module HPKEPublicKey.

Record t : Type := { data : bytes }.

Section Operations.
Context `{P : Primitives}.

(** [encrypt]; [rnd] is the randomness [setup_base_s] draws. *)
Definition encrypt (self : t) (suite : CipherSuite.t) (rnd : bytes)
    (info aad pt : bytes) : result HPKECiphertext.t :=
  h <- CipherSuite.hpke suite ;;
  pkR <- KEM.deserialize (HPKE.kem h) (data self) ;;
  h' <- CipherSuite.hpke suite ;;
  let '(enc, ctx) := HPKE.setup_base_s h' rnd pkR info in
  let ct := fst (HPKE.seal ctx aad pt) in
  Ok {| HPKECiphertext.kem_output := enc; HPKECiphertext.ciphertext := ct |}.

Definition do_export (self : t) (suite : CipherSuite.t) (rnd : bytes)
    (info : bytes) (label : string) (size : Z) : result (bytes * bytes) :=
  let label_data := from_ascii label in
  h <- CipherSuite.hpke suite ;;
  pkR <- KEM.deserialize (HPKE.kem h) (data self) ;;
  h' <- CipherSuite.hpke suite ;;
  let '(enc, ctx) := HPKE.setup_base_s h' rnd pkR info in
  let exported := HPKE.do_export ctx label_data size in
  Ok (enc, exported).

End Operations.
End HPKEPublicKey.

Module HPKEPrivateKey.

Record t : Type := {
  data : bytes;
  public_key : HPKEPublicKey.t
}.

(** [HPKEPrivateKey::HPKEPrivateKey(priv_data, pub_data)]. *)
Definition make (priv_data pub_data : bytes) : t :=
  {| data := priv_data;
     public_key := {| HPKEPublicKey.data := pub_data |} |}.

Section Operations.
Context `{P : Primitives}.

(** [generate]; [rnd] is the randomness [generate_key_pair] draws. *)
Definition generate (suite : CipherSuite.t) (rnd : bytes) : result t :=
  h <- CipherSuite.hpke suite ;;
  let priv := KEM.generate_key_pair (HPKE.kem h) rnd in
  h1 <- CipherSuite.hpke suite ;;
  let priv_data := KEM.serialize_private (HPKE.kem h1) priv in
  let pub := KEM.public_key (HPKE.kem h) priv in
  h2 <- CipherSuite.hpke suite ;;
  let pub_data := KEM.serialize (HPKE.kem h2) pub in
  Ok (make priv_data pub_data).

Definition parse (suite : CipherSuite.t) (data : bytes) : result t :=
  h <- CipherSuite.hpke suite ;;
  priv <- KEM.deserialize_private (HPKE.kem h) data ;;
  let pub := KEM.public_key (HPKE.kem h) priv in
  h1 <- CipherSuite.hpke suite ;;
  let pub_data := KEM.serialize (HPKE.kem h1) pub in
  Ok (make data pub_data).

Definition derive (suite : CipherSuite.t) (secret : bytes) : result t :=
  h <- CipherSuite.hpke suite ;;
  let priv := KEM.derive_key_pair (HPKE.kem h) secret in
  h1 <- CipherSuite.hpke suite ;;
  let priv_data := KEM.serialize_private (HPKE.kem h1) priv in
  let pub := KEM.public_key (HPKE.kem h) priv in
  h2 <- CipherSuite.hpke suite ;;
  let pub_data := KEM.serialize (HPKE.kem h2) pub in
  Ok (make priv_data pub_data).

Definition decrypt (self : t) (suite : CipherSuite.t) (info aad : bytes)
    (ct : HPKECiphertext.t) : result bytes :=
  h <- CipherSuite.hpke suite ;;
  skR <- KEM.deserialize_private (HPKE.kem h) (data self) ;;
  h' <- CipherSuite.hpke suite ;;
  let ctx := HPKE.setup_base_r h' (HPKECiphertext.kem_output ct) skR info in
  let pt := fst (HPKE.open ctx aad (HPKECiphertext.ciphertext ct)) in
  match pt with
  | None => Err (InvalidParameterError "HPKE decryption failure")
  | Some pt' => Ok pt'
  end.

Definition do_export (self : t) (suite : CipherSuite.t) (info : bytes)
    (kem_output : bytes) (label : string) (size : Z) : result bytes :=
  let label_data := from_ascii label in
  h <- CipherSuite.hpke suite ;;
  skR <- KEM.deserialize_private (HPKE.kem h) (data self) ;;
  h' <- CipherSuite.hpke suite ;;
  let ctx := HPKE.setup_base_r h' kem_output skR info in
  Ok (HPKE.do_export ctx label_data size).

(** The public half re-derived from the stored private octets. *)
Definition rederive_public (self : t) (suite : CipherSuite.t) : result bytes :=
  h <- CipherSuite.hpke suite ;;
  priv <- KEM.deserialize_private (HPKE.kem h) (data self) ;;
  Ok (KEM.serialize (HPKE.kem h) (KEM.public_key (HPKE.kem h) priv)).

End Operations.
End HPKEPrivateKey.

(** ** SignaturePublicKey and SignaturePrivateKey *)

(** [SIGN_LABEL(label)] is [from_ascii("MLS 1.0 " label)], the two literals
    joined by the compiler. *)
Definition SIGN_LABEL (label : string) : bytes :=
  from_ascii ("MLS 1.0 " ++ label).

Module sign_label.
Definition mls_content : bytes := SIGN_LABEL "MLSContentTBS".
Definition leaf_node : bytes := SIGN_LABEL "LeafNodeTBS".
Definition key_package : bytes := SIGN_LABEL "KeyPackageTBS".
Definition group_info : bytes := SIGN_LABEL "GroupInfoTBS".
End sign_label.

(** [struct SignContent], with [TLS_SERIALIZABLE(label, content)]. *)
Module SignContent.
Record t : Type := {
  label : bytes;
  content : bytes
}.

(** Modelled from the spec: a struct is marshalled as the concatenation of
    its members' encodings in declaration order. *)
Definition marshal (c : t) : bytes :=
  tls.opaque (label c) ++ tls.opaque (content c).
End SignContent.

Module SignaturePublicKey.

Record t : Type := { data : bytes }.

Section Operations.
Context `{P : Primitives}.

Definition verify (self : t) (suite : CipherSuite.t)
    (label message signature : bytes) : result bool :=
  let content :=
    SignContent.marshal {| SignContent.label := label;
                           SignContent.content := message |} in
  s <- CipherSuite.sig suite ;;
  pub <- Signature.deserialize s (data self) ;;
  s' <- CipherSuite.sig suite ;;
  Ok (Signature.verify s' content signature pub).

End Operations.
End SignaturePublicKey.

Module SignaturePrivateKey.

Record t : Type := {
  data : bytes;
  public_key : SignaturePublicKey.t
}.

(** [SignaturePrivateKey::SignaturePrivateKey(priv_data, pub_data)]. *)
Definition make (priv_data pub_data : bytes) : t :=
  {| data := priv_data;
     public_key := {| SignaturePublicKey.data := pub_data |} |}.

Section Operations.
Context `{P : Primitives}.

(** [generate]; [rnd] is the randomness [generate_key_pair] draws. *)
Definition generate (suite : CipherSuite.t) (rnd : bytes) : result t :=
  s <- CipherSuite.sig suite ;;
  let priv := Signature.generate_key_pair s rnd in
  s1 <- CipherSuite.sig suite ;;
  let priv_data := Signature.serialize_private s1 priv in
  let pub := Signature.public_key s priv in
  s2 <- CipherSuite.sig suite ;;
  let pub_data := Signature.serialize s2 pub in
  Ok (make priv_data pub_data).

Definition parse (suite : CipherSuite.t) (data : bytes) : result t :=
  s <- CipherSuite.sig suite ;;
  priv <- Signature.deserialize_private s data ;;
  let pub := Signature.public_key s priv in
  s1 <- CipherSuite.sig suite ;;
  let pub_data := Signature.serialize s1 pub in
  Ok (make data pub_data).

Definition derive (suite : CipherSuite.t) (secret : bytes) : result t :=
  s <- CipherSuite.sig suite ;;
  let priv := Signature.derive_key_pair s secret in
  s1 <- CipherSuite.sig suite ;;
  let priv_data := Signature.serialize_private s1 priv in
  let pub := Signature.public_key s priv in
  s2 <- CipherSuite.sig suite ;;
  let pub_data := Signature.serialize s2 pub in
  Ok (make priv_data pub_data).

Definition sign (self : t) (suite : CipherSuite.t) (label message : bytes)
    : result bytes :=
  let content :=
    SignContent.marshal {| SignContent.label := label;
                           SignContent.content := message |} in
  s <- CipherSuite.sig suite ;;
  priv <- Signature.deserialize_private s (data self) ;;
  s' <- CipherSuite.sig suite ;;
  Ok (Signature.sign s' content priv).

(** The public half re-derived from the stored private octets. *)
Definition rederive_public (self : t) (suite : CipherSuite.t) : result bytes :=
  s <- CipherSuite.sig suite ;;
  priv <- Signature.deserialize_private s (data self) ;;
  Ok (Signature.serialize s (Signature.public_key s priv)).

End Operations.
End SignaturePrivateKey.

(** ** The specification's reading of the key-schedule helper *)

(** Written after the specification's three steps for [expand_with_label]:
    prepend "mls10 " to the label; encode the [HKDFLabel] as a 16-bit
    big-endian length followed by two variable-length vectors; hand the
    encoding to [KDF.expand] with the full [L]. *)
Definition spec_hkdf_label (label : string) (context : bytes) (L : Z) : bytes :=
  let mls_label := from_ascii "mls10 " ++ from_ascii label in
  let L16 := L mod 65536 in
  [u8 (L16 / 256); u8 L16] ++ tls.opaque mls_label ++ tls.opaque context.

Definition spec_expand_with_label (kdf : KDF.t) (secret : bytes)
    (label : string) (context : bytes) (L : Z) : bytes :=
  KDF.expand kdf secret (spec_hkdf_label label context L) L.

(** The specification's table of signature schemes, one per supported ID. *)
Definition spec_signature_scheme (id : CipherSuite.ID)
    : option SignatureScheme :=
  match id with
  | 1 | 3 => Some ed25519
  | 2 => Some ecdsa_secp256r1_sha256
  | 4 | 6 => Some ed448
  | 5 => Some ecdsa_secp521r1_sha512
  | _ => None
  end.

(** ** A small instance of the primitive library

    Arithmetic on single octets stands in for the real algorithms, so that the
    operations above can be run and the algebraic laws assumed of the
    primitives can be seen to hold together. *)

Module Toy.

Definition tag (b : bytes) : byte :=
  u8 (fold_left (fun acc x => acc * 31 + byte_val x + 1) b 0).

Definition mul (a b : byte) : byte := u8 (byte_val a * byte_val b).

Definition base : byte := x05.

Definition one_octet (what : string) (b : bytes) : result byte :=
  match b with
  | [x] => Ok x
  | _ => Err (InvalidParameterError what)
  end.

Definition kem : KEM.t byte byte :=
  {| KEM.generate_key_pair := fun rnd => tag rnd;
     KEM.derive_key_pair := fun ikm => tag (x01 :: ikm);
     KEM.public_key := fun sk => mul sk base;
     KEM.serialize := fun pk => [pk];
     KEM.deserialize := one_octet "toy KEM public key";
     KEM.serialize_private := fun sk => [sk];
     KEM.deserialize_private := one_octet "toy KEM private key";
     KEM.encap := fun rnd pk =>
       let e := tag rnd in ([mul e base], [mul e pk]);
     KEM.decap := fun enc sk =>
       match enc with
       | [e] => [mul sk e]
       | _ => []
       end |}.

Definition kdf : KDF.t :=
  {| KDF.extract := fun salt ikm => [tag salt; tag ikm];
     KDF.expand := fun prk info L =>
       List.map (fun i => tag (prk ++ info ++ [u8 (Z.of_nat i)]))
                (List.seq 0 (Z.to_nat L));
     KDF.hash_size := 2 |}.

Definition aead_tag (key nonce aad pt : bytes) : byte :=
  tag (tls.opaque key ++ tls.opaque nonce ++ tls.opaque aad ++ pt).

Definition aead : AEAD.t :=
  {| AEAD.seal := fun key nonce aad pt => aead_tag key nonce aad pt :: pt;
     AEAD.open := fun key nonce aad ct =>
       match ct with
       | t :: pt =>
           if Byte.eqb t (aead_tag key nonce aad pt) then Some pt else None
       | [] => None
       end;
     AEAD.key_size := 1;
     AEAD.nonce_size := 2 |}.

Definition digest : Digest.t :=
  {| Digest.hash := fun b => [tag b; tag (x01 :: b)];
     Digest.hash_size := 2 |}.

Definition sig_public (sk : byte) : byte := u8 (byte_val sk * 3 + 1).

Definition sig : Signature.t byte byte :=
  {| Signature.generate_key_pair := fun rnd => tag rnd;
     Signature.derive_key_pair := fun ikm => tag (x02 :: ikm);
     Signature.public_key := sig_public;
     Signature.serialize := fun pk => [pk];
     Signature.deserialize := one_octet "toy signature public key";
     Signature.serialize_private := fun sk => [sk];
     Signature.deserialize_private := one_octet "toy signature private key";
     Signature.sign := fun msg sk => [tag (sig_public sk :: msg)];
     Signature.verify := fun msg sg pk => bytes_eqb sg [tag (pk :: msg)] |}.

Definition primitives : Primitives :=
  {| KEMPrivateKey := byte;
     KEMPublicKey := byte;
     SigPrivateKey := byte;
     SigPublicKey := byte;
     kem_get := fun _ => kem;
     kdf_get := fun _ => kdf;
     aead_get := fun _ => aead;
     digest_get := fun _ => digest;
     sig_get := fun _ => sig;
     key_schedule := fun _ shared info =>
       {| km_key := [tag (shared ++ info)];
          km_base_nonce := [tag shared; tag info];
          km_exporter_secret := [tag (info ++ shared)] |};
     labeled_expand := fun _ secret label info L =>
       KDF.expand kdf secret (from_ascii label ++ info) L |}.

(** Concrete values the examples run on. *)
Definition suite1 : CipherSuite.t :=
  {| CipherSuite.id := CipherSuite.X25519_AES128GCM_SHA256_Ed25519 |}.

Definition hpke_key : HPKEPrivateKey.t :=
  HPKEPrivateKey.make [x07] [x23].

Definition forged : HPKECiphertext.t :=
  {| HPKECiphertext.kem_output := [x05];
     HPKECiphertext.ciphertext := [x00; x61; x62] |}.

End Toy.

(** The failure [CipherSuite::get] raises for the default-constructed suite. *)
Definition uninitialized : error :=
  InvalidParameterError "Uninitialized ciphersuite".

(** The failure in the role the specification calls [HPKEDecryptionError]:
    what [HPKEPrivateKey::decrypt] raises when the context's [open] returns
    no plaintext. *)
Definition HPKEDecryptionError : error :=
  InvalidParameterError "HPKE decryption failure".

(** ** What is assumed of the primitives

    The algorithms themselves live in the primitive library.  Each law below
    is the contract of one family, stated for every handle. *)

Section Laws.
Context `{P : Primitives}.

(** A private key survives its serialization. *)
Definition KEM_private_roundtrip : Prop :=
  forall i sk,
    KEM.deserialize_private (kem_get i) (KEM.serialize_private (kem_get i) sk)
    = Ok sk.

(** A public key survives its serialization. *)
Definition KEM_public_roundtrip : Prop :=
  forall i pk,
    KEM.deserialize (kem_get i) (KEM.serialize (kem_get i) pk) = Ok pk.

(** Decapsulation recovers the secret that encapsulation shared. *)
Definition KEM_correct : Prop :=
  forall i rnd sk,
    KEM.decap (kem_get i)
      (fst (KEM.encap (kem_get i) rnd (KEM.public_key (kem_get i) sk))) sk
    = snd (KEM.encap (kem_get i) rnd (KEM.public_key (kem_get i) sk)).

(** Opening what was sealed under the same key, nonce and aad gives the
    plaintext back. *)
Definition AEAD_correct : Prop :=
  forall i key nonce aad pt,
    AEAD.open (aead_get i) key nonce aad
      (AEAD.seal (aead_get i) key nonce aad pt) = Some pt.

(** [expand] returns as many octets as it is asked for. *)
Definition KDF_expand_length : Prop :=
  forall i prk info L, 0 <= L -> size (KDF.expand (kdf_get i) prk info L) = L.

Definition Sig_private_roundtrip : Prop :=
  forall i sk,
    Signature.deserialize_private (sig_get i)
      (Signature.serialize_private (sig_get i) sk) = Ok sk.

Definition Sig_public_roundtrip : Prop :=
  forall i pk,
    Signature.deserialize (sig_get i) (Signature.serialize (sig_get i) pk)
    = Ok pk.

(** A signature verifies under the public half of the key that made it. *)
Definition Sig_correct : Prop :=
  forall i msg sk,
    Signature.verify (sig_get i) msg (Signature.sign (sig_get i) msg sk)
      (Signature.public_key (sig_get i) sk) = true.

End Laws.

(** ** Reading the TLS encoding back *)

Module tls_read.

(** Modelled from the spec: the length prefix of a vector read from the front
    of a buffer, with what is left of the buffer.  The two high bits of the
    first octet give the width of the prefix; a buffer that ends inside the
    prefix is truncated input. *)
Definition varint (b : bytes) : result (Z * bytes) :=
  match b with
  | [] => Err TLSDecodeError
  | x :: rest =>
    let v := byte_val x in
    if v <? 64 then Ok (v, rest)
    else if v <? 128 then
      match rest with
      | y :: rest' => Ok ((v - 64) * 256 + byte_val y, rest')
      | _ => Err TLSDecodeError
      end
    else if v <? 192 then
      match rest with
      | y1 :: y2 :: y3 :: rest' =>
        Ok ((v - 128) * 2 ^ 24 + byte_val y1 * 2 ^ 16
            + byte_val y2 * 2 ^ 8 + byte_val y3, rest')
      | _ => Err TLSDecodeError
      end
    else Err TLSDecodeError
  end.

(** Modelled from the spec: a vector read from the front of a buffer; a
    length prefix that exceeds the remaining buffer is an error. *)
Definition opaque (b : bytes) : result (bytes * bytes) :=
  r <- varint b ;;
  let '(n, rest) := r in
  if n <=? size rest
  then Ok (firstn (Z.to_nat n) rest, skipn (Z.to_nat n) rest)
  else Err TLSDecodeError.

(** Modelled from the spec: a top-level decode fails when octets remain. *)
Definition finish {A : Type} (r : A * bytes) : result A :=
  match snd r with
  | [] => Ok (fst r)
  | _ :: _ => Err TLSDecodeError
  end.

End tls_read.

(** Modelled from the spec: a public key is marshalled as the single vector
    [opaque<V>] of its octets, and [tls::get] reads it back at top level. *)
Definition marshal_HPKEPublicKey (k : HPKEPublicKey.t) : bytes :=
  tls.opaque (HPKEPublicKey.data k).

Definition get_HPKEPublicKey (b : bytes) : result HPKEPublicKey.t :=
  r <- tls_read.opaque b ;;
  d <- tls_read.finish r ;;
  Ok {| HPKEPublicKey.data := d |}.

Definition marshal_SignaturePublicKey (k : SignaturePublicKey.t) : bytes :=
  tls.opaque (SignaturePublicKey.data k).

Definition get_SignaturePublicKey (b : bytes) : result SignaturePublicKey.t :=
  r <- tls_read.opaque b ;;
  d <- tls_read.finish r ;;
  Ok {| SignaturePublicKey.data := d |}.

(** ** The JSON bridge of the interop harness *)

Module json.

(** The JSON values the serializers below tell apart. *)
#[warnings="-register-all"]
Inductive t : Type :=
| null
| number (n : Z)
| text (s : string)
| array (l : list t)
| object (fields : list (string * t)).

Definition is_null (j : t) : bool :=
  match j with
  | null => true
  | _ => false
  end.

Section Optional.
Variable T : Type.

(** [j = x] and [j.get<T>()] for the element type; [None] stands for the
    exception a failed conversion raises. *)
Variable to_json_T : T -> t.
Variable from_json_T : t -> option T.

(** [adl_serializer<std::optional<T>>::to_json]. *)
Definition optional_to_json (v : option T) : t :=
  match v with
  | None => null
  | Some x => to_json_T x
  end.

(** [adl_serializer<std::optional<T>>::from_json]. *)
Definition optional_from_json (j : t) : option (option T) :=
  if is_null j then Some None
  else match from_json_T j with
       | Some x => Some (Some x)
       | None => None
       end.

End Optional.

(** [adl_serializer<mls::CipherSuite>::to_json]: the suite's ID as a number. *)
Definition CipherSuite_to_json (v : CipherSuite.t) : t :=
  number (CipherSuite.id v).

(** [adl_serializer<mls::CipherSuite>::from_json]: [j.get<ID>()] converts a
    number to the 16-bit enumeration and raises on any other value;
    [CipherSuite(id)] stores what it is given. *)
Definition CipherSuite_from_json (j : t) : option CipherSuite.t :=
  match j with
  | number n => Some {| CipherSuite.id := n mod 2 ^ 16 |}
  | _ => None
  end.

End json.

(** * Properties *)

(** ** Octets and the codec *)

Lemma byte_val_u8 (n : Z) : byte_val (u8 n) = n mod 256.
Proof.
  unfold byte_val, u8.
  assert (Hr : 0 <= n mod 256 < 256) by (apply Z.mod_pos_bound; lia).
  destruct (Byte.of_N (Z.to_N (n mod 256))) as [b|] eqn:E.
  - apply Byte.to_of_N in E. rewrite E. apply Z2N.id. lia.
  - exfalso. apply Byte.of_N_None_iff in E. lia.
Qed.

Lemma u8_congr (a b : Z) : a mod 256 = b mod 256 -> u8 a = u8 b.
Proof. unfold u8. intros ->. reflexivity. Qed.

Lemma u8_byte_val (b : byte) : u8 (byte_val b) = b.
Proof.
  unfold u8, byte_val.
  pose proof (Byte.to_N_bounded b) as Hb.
  rewrite Z.mod_small by lia.
  rewrite N2Z.id, Byte.of_to_N. reflexivity.
Qed.

Lemma from_ascii_app (a b : string) :
  from_ascii (a ++ b) = (from_ascii a ++ from_ascii b)%list.
Proof.
  unfold from_ascii, list_byte_of_string.
  induction a as [|c a IH]; simpl; [reflexivity|].
  f_equal. exact IH.
Qed.

Lemma uint16_octets (n : Z) : tls.uint16 n = [u8 (n / 256); u8 n].
Proof.
  unfold tls.uint16. simpl tls.uint.
  rewrite Z.shiftr_0_r.
  change (8 * Z.of_nat 1) with 8.
  rewrite Z.shiftr_div_pow2 by lia.
  reflexivity.
Qed.

Lemma read_uint16 (n : Z) : tls.read_uint (tls.uint16 n) = n mod 2 ^ 16.
Proof.
  rewrite uint16_octets. unfold tls.read_uint. simpl fold_left.
  rewrite !byte_val_u8.
  change (2 ^ 16) with (256 * 256).
  rewrite Z.rem_mul_r by lia. lia.
Qed.

Example varint_one_octet : tls.varint 63 = [x3f].
Proof. reflexivity. Qed.

Example varint_two_octets : tls.varint 64 = [x40; x40].
Proof. reflexivity. Qed.

Example varint_four_octets : tls.varint 16384 = [x80; x00; x40; x00].
Proof. reflexivity. Qed.

Example marshal_HKDFLabel_test :
  HKDFLabel.marshal {| HKDFLabel.length := 32;
                       HKDFLabel.label := from_ascii "mls10 test";
                       HKDFLabel.context := [] |}
  = [x00; x20; x0a; x6d; x6c; x73; x31; x30; x20; x74; x65; x73; x74; x00].
Proof. reflexivity. Qed.

Lemma uint_zero (w : nat) : tls.uint w 0 = repeat x00 w.
Proof.
  induction w as [|w IH]; [reflexivity|].
  cbn [tls.uint repeat]. rewrite Z.shiftr_0_l, IH. reflexivity.
Qed.

Lemma xor_bytes_zero (b : bytes) :
  xor_bytes b (repeat x00 (List.length b)) = b.
Proof.
  induction b as [|x b IH]; [reflexivity|].
  cbn [List.length repeat xor_bytes]. rewrite IH. f_equal.
  unfold xor_byte. change (byte_val x00) with 0.
  rewrite Z.lxor_0_r. apply u8_byte_val.
Qed.

(** A context that has sealed or opened nothing uses the base nonce as it
    is: XORing in sequence number 0 changes no octet. *)
Lemma compute_nonce_fresh (c : HPKE.Context) :
  HPKE.sequence c = 0 -> HPKE.compute_nonce c = HPKE.base_nonce c.
Proof.
  intros H. unfold HPKE.compute_nonce.
  rewrite H, uint_zero. apply xor_bytes_zero.
Qed.

Lemma bytes_eqb_refl (b : bytes) : bytes_eqb b b = true.
Proof.
  induction b as [|x b IH]; simpl; [reflexivity|].
  rewrite IH, andb_true_r.
  destruct (Byte.eqb x x) eqn:E; [reflexivity|].
  apply Byte.eqb_false in E. congruence.
Qed.

(** ** The registry *)

Lemma supported_cases (i : CipherSuite.ID) :
  In i CipherSuite.all_supported_suites ->
  i = 1 \/ i = 2 \/ i = 3 \/ i = 4 \/ i = 5 \/ i = 6.
Proof.
  unfold CipherSuite.all_supported_suites. simpl.
  intros H. repeat (destruct H as [H|H]; [subst i; tauto|]). contradiction.
Qed.

Lemma supported_get (s : CipherSuite.t) :
  In (CipherSuite.id s) CipherSuite.all_supported_suites ->
  exists c, CipherSuite.get s = Ok c.
Proof.
  intros H. apply supported_cases in H.
  destruct s as [i]. simpl in H. unfold CipherSuite.get. simpl.
  destruct H as [H|[H|[H|[H|[H|H]]]]]; subst i; eexists; reflexivity.
Qed.

Lemma unknown_get (s : CipherSuite.t) :
  CipherSuite.id s = CipherSuite.unknown ->
  CipherSuite.get s = Err uninitialized.
Proof. intros H. unfold CipherSuite.get. rewrite H. reflexivity. Qed.

(** C8.  For each of the six supported ciphersuite IDs, [signature_scheme]
    returns the TLS signature scheme of the signature primitive held in the
    bundle that [get] returns for the same ID, and that scheme is the one the
    specification lists: ed25519 for the X25519 suites,
    ecdsa_secp256r1_sha256 for P256, ed448 for the X448 suites,
    ecdsa_secp521r1_sha512 for P521. *)
Theorem signature_scheme_matches_sig (s : CipherSuite.t) :
  In (CipherSuite.id s) CipherSuite.all_supported_suites ->
  exists c sch,
    CipherSuite.get s = Ok c /\
    CipherSuite.signature_scheme s = Ok sch /\
    tls_signature_scheme (Ciphers.sig c) = Ok sch /\
    spec_signature_scheme (CipherSuite.id s) = Some sch.
Proof.
  intros H. apply supported_cases in H.
  destruct s as [i]. simpl in H |- *.
  unfold CipherSuite.get, CipherSuite.signature_scheme. simpl.
  destruct H as [H|[H|[H|[H|[H|H]]]]]; subst i; simpl;
    eexists; eexists; repeat split; reflexivity.
Qed.

Lemma signature_scheme_matches_sig_witness :
  exists c sch,
    CipherSuite.get {| CipherSuite.id := 5 |} = Ok c /\
    CipherSuite.signature_scheme {| CipherSuite.id := 5 |} = Ok sch /\
    tls_signature_scheme (Ciphers.sig c) = Ok sch /\
    spec_signature_scheme 5 = Some sch.
Proof.
  apply (signature_scheme_matches_sig {| CipherSuite.id := 5 |}).
  simpl. tauto.
Defined.

Section UnknownSuite.
Context `{P : Primitives}.
Variable s : CipherSuite.t.
Hypothesis Hunknown : CipherSuite.id s = CipherSuite.unknown.

Lemma unknown_hpke : CipherSuite.hpke s = Err uninitialized.
Proof. unfold CipherSuite.hpke. rewrite (unknown_get s Hunknown). reflexivity. Qed.

Lemma unknown_sig : CipherSuite.sig s = Err uninitialized.
Proof. unfold CipherSuite.sig. rewrite (unknown_get s Hunknown). reflexivity. Qed.

Lemma unknown_secret_size : CipherSuite.secret_size s = Err uninitialized.
Proof.
  unfold CipherSuite.secret_size. rewrite (unknown_get s Hunknown). reflexivity.
Qed.

(** C3.  Every operation on a ciphersuite whose ID is [unknown] fails with
    [InvalidParameterError]: [get] and [signature_scheme], the derived
    attributes, the key-schedule helpers, and every operation of the four key
    types that is handed the suite. *)
Theorem unknown_suite_fails :
  CipherSuite.get s = Err uninitialized /\
  CipherSuite.signature_scheme s
  = Err (InvalidParameterError "Unsupported algorithm") /\
  CipherSuite.hpke s = Err uninitialized /\
  CipherSuite.digest s = Err uninitialized /\
  CipherSuite.sig s = Err uninitialized /\
  CipherSuite.secret_size s = Err uninitialized /\
  (forall secret label context L,
      CipherSuite.expand_with_label s secret label context L
      = Err uninitialized) /\
  (forall secret label,
      CipherSuite.derive_secret s secret label = Err uninitialized) /\
  (forall T m, CipherSuite.make_reference s T m = Err uninitialized) /\
  (forall pk rnd info aad pt,
      HPKEPublicKey.encrypt pk s rnd info aad pt = Err uninitialized) /\
  (forall pk rnd info label L,
      HPKEPublicKey.do_export pk s rnd info label L = Err uninitialized) /\
  (forall rnd, HPKEPrivateKey.generate s rnd = Err uninitialized) /\
  (forall data, HPKEPrivateKey.parse s data = Err uninitialized) /\
  (forall secret, HPKEPrivateKey.derive s secret = Err uninitialized) /\
  (forall sk info aad ct,
      HPKEPrivateKey.decrypt sk s info aad ct = Err uninitialized) /\
  (forall sk info enc label L,
      HPKEPrivateKey.do_export sk s info enc label L = Err uninitialized) /\
  (forall pk label msg sg,
      SignaturePublicKey.verify pk s label msg sg = Err uninitialized) /\
  (forall rnd, SignaturePrivateKey.generate s rnd = Err uninitialized) /\
  (forall data, SignaturePrivateKey.parse s data = Err uninitialized) /\
  (forall secret, SignaturePrivateKey.derive s secret = Err uninitialized) /\
  (forall sk label msg,
      SignaturePrivateKey.sign sk s label msg = Err uninitialized).
Proof.
  pose proof (unknown_get s Hunknown) as Hget.
  pose proof unknown_hpke as Hh.
  pose proof unknown_sig as Hs.
  pose proof unknown_secret_size as Hn.
  repeat split; intros;
    try exact Hget; try exact Hh; try exact Hs; try exact Hn.
  - unfold CipherSuite.signature_scheme. rewrite Hunknown. reflexivity.
  - unfold CipherSuite.digest. rewrite Hget. reflexivity.
  - unfold CipherSuite.expand_with_label. rewrite Hget. reflexivity.
  - unfold CipherSuite.derive_secret. rewrite Hn. reflexivity.
  - unfold CipherSuite.make_reference. rewrite Hh. reflexivity.
  - unfold HPKEPublicKey.encrypt. rewrite Hh. reflexivity.
  - unfold HPKEPublicKey.do_export. rewrite Hh. reflexivity.
  - unfold HPKEPrivateKey.generate. rewrite Hh. reflexivity.
  - unfold HPKEPrivateKey.parse. rewrite Hh. reflexivity.
  - unfold HPKEPrivateKey.derive. rewrite Hh. reflexivity.
  - unfold HPKEPrivateKey.decrypt. rewrite Hh. reflexivity.
  - unfold HPKEPrivateKey.do_export. rewrite Hh. reflexivity.
  - unfold SignaturePublicKey.verify. rewrite Hs. reflexivity.
  - unfold SignaturePrivateKey.generate. rewrite Hs. reflexivity.
  - unfold SignaturePrivateKey.parse. rewrite Hs. reflexivity.
  - unfold SignaturePrivateKey.derive. rewrite Hs. reflexivity.
  - unfold SignaturePrivateKey.sign. rewrite Hs. reflexivity.
Qed.

End UnknownSuite.

Lemma unknown_suite_fails_witness :
  CipherSuite.id CipherSuite.default = CipherSuite.unknown /\
  CipherSuite.get CipherSuite.default = Err uninitialized /\
  CipherSuite.signature_scheme CipherSuite.default
  = Err (InvalidParameterError "Unsupported algorithm") /\
  @HPKEPrivateKey.decrypt Toy.primitives Toy.hpke_key CipherSuite.default
    [] [] Toy.forged = Err uninitialized.
Proof.
  pose proof (@unknown_suite_fails Toy.primitives CipherSuite.default
                eq_refl) as H.
  split; [reflexivity|].
  split; [exact (proj1 H)|].
  split; [exact (proj1 (proj2 H))|].
  apply H.
Defined.

(** ** Key-schedule helpers *)

Lemma marshal_HKDFLabel_spec (label : string) (context : bytes) (L : Z) :
  HKDFLabel.marshal
    {| HKDFLabel.length := L mod 2 ^ 16;
       HKDFLabel.label := from_ascii ("mls10 " ++ label);
       HKDFLabel.context := context |}
  = spec_hkdf_label label context L.
Proof.
  unfold HKDFLabel.marshal, spec_hkdf_label.
  cbn [HKDFLabel.length HKDFLabel.label HKDFLabel.context].
  rewrite uint16_octets, from_ascii_app.
  change (2 ^ 16) with 65536. reflexivity.
Qed.

Section KeySchedule.
Context `{P : Primitives}.

(** C4.  For a supported ciphersuite and any secret, label, context and L,
    [expand_with_label] returns [KDF.expand] of the secret, of the
    TLS encoding of [HKDFLabel{ L as u16, "mls10 " ++ label, context }]
    (a 16-bit big-endian length, then two variable-length vectors), and of
    the length L, with the KDF of the suite. *)
Theorem expand_with_label_refines_spec
    (s : CipherSuite.t) (secret : bytes) (label : string) (context : bytes)
    (L : Z) :
  In (CipherSuite.id s) CipherSuite.all_supported_suites ->
  exists c,
    CipherSuite.get s = Ok c /\
    CipherSuite.expand_with_label s secret label context L
    = Ok (spec_expand_with_label (kdf_get (HPKE.kdf_id (Ciphers.hpke c)))
            secret label context L).
Proof.
  intros Hs. destruct (supported_get s Hs) as [c Hc].
  exists c. split; [exact Hc|].
  unfold CipherSuite.expand_with_label, spec_expand_with_label.
  rewrite Hc. cbn [bind].
  rewrite marshal_HKDFLabel_spec. reflexivity.
Qed.

(** C10.  A length of 2^16 or more does not make [expand_with_label] fail:
    for a supported suite it returns [KDF.expand] asked for the full L
    octets, over a label whose length field, read back from its first two
    octets, is L mod 2^16 and so differs from L. *)
Theorem expand_with_label_truncates_length
    (s : CipherSuite.t) (secret : bytes) (label : string) (context : bytes)
    (L : Z) :
  In (CipherSuite.id s) CipherSuite.all_supported_suites ->
  2 ^ 16 <= L ->
  exists c,
    CipherSuite.get s = Ok c /\
    CipherSuite.expand_with_label s secret label context L
    = Ok (KDF.expand (kdf_get (HPKE.kdf_id (Ciphers.hpke c)))
            secret (spec_hkdf_label label context L) L) /\
    tls.read_uint (firstn 2 (spec_hkdf_label label context L))
    = L mod 2 ^ 16 /\
    tls.read_uint (firstn 2 (spec_hkdf_label label context L)) <> L.
Proof.
  intros Hs HL. destruct (supported_get s Hs) as [c Hc].
  exists c. split; [exact Hc|]. split.
  - unfold CipherSuite.expand_with_label. rewrite Hc. cbn [bind].
    rewrite marshal_HKDFLabel_spec. reflexivity.
  - assert (E : tls.read_uint (firstn 2 (spec_hkdf_label label context L))
                = L mod 2 ^ 16).
    { unfold spec_hkdf_label. cbn [firstn app].
      rewrite <- uint16_octets, read_uint16.
      change 65536 with (2 ^ 16). apply Z.mod_mod. lia. }
    rewrite E. split; [reflexivity|].
    pose proof (Z.mod_pos_bound L (2 ^ 16)). lia.
Qed.

End KeySchedule.

Lemma expand_with_label_refines_spec_witness :
  exists c,
    CipherSuite.get Toy.suite1 = Ok c /\
    @CipherSuite.expand_with_label Toy.primitives Toy.suite1
      [x00; x00] "test" [] 32
    = Ok (spec_expand_with_label
            (@kdf_get Toy.primitives (HPKE.kdf_id (Ciphers.hpke c)))
            [x00; x00] "test" [] 32).
Proof.
  apply (@expand_with_label_refines_spec Toy.primitives Toy.suite1).
  simpl. tauto.
Defined.

Lemma expand_with_label_truncates_length_witness :
  exists c,
    CipherSuite.get Toy.suite1 = Ok c /\
    @CipherSuite.expand_with_label Toy.primitives Toy.suite1
      [x00] "test" [] 65537
    = Ok (KDF.expand
            (@kdf_get Toy.primitives (HPKE.kdf_id (Ciphers.hpke c)))
            [x00] (spec_hkdf_label "test" [] 65537) 65537) /\
    tls.read_uint (firstn 2 (spec_hkdf_label "test" [] 65537))
    = 65537 mod 2 ^ 16 /\
    tls.read_uint (firstn 2 (spec_hkdf_label "test" [] 65537)) <> 65537.
Proof.
  apply (@expand_with_label_truncates_length Toy.primitives Toy.suite1).
  - simpl. tauto.
  - lia.
Defined.

(** ** Signed content and references *)

Section SignedContent.
Context `{P : Primitives}.

(** C5.  For a supported ciphersuite, [sign] hands the signature primitive
    exactly the octets of [marshal(SignContent{ label, message })], the two
    variable-length vectors one after the other, and [verify] checks the
    signature against exactly the same octets; the four standard sign-labels
    are the ASCII octets of "MLS 1.0 MLSContentTBS", "MLS 1.0 LeafNodeTBS",
    "MLS 1.0 KeyPackageTBS" and "MLS 1.0 GroupInfoTBS". *)
Theorem sign_verify_payload
    (s : CipherSuite.t) (sk : SignaturePrivateKey.t)
    (pk : SignaturePublicKey.t) (label message sg : bytes) :
  In (CipherSuite.id s) CipherSuite.all_supported_suites ->
  exists c,
    CipherSuite.get s = Ok c /\
    let h := sig_get (Ciphers.sig c) in
    let payload :=
      (tls.varint (size label) ++ label
       ++ tls.varint (size message) ++ message)%list in
    SignContent.marshal {| SignContent.label := label;
                           SignContent.content := message |} = payload /\
    SignaturePrivateKey.sign sk s label message
    = (priv <- Signature.deserialize_private h (SignaturePrivateKey.data sk) ;;
       Ok (Signature.sign h payload priv)) /\
    SignaturePublicKey.verify pk s label message sg
    = (pub <- Signature.deserialize h (SignaturePublicKey.data pk) ;;
       Ok (Signature.verify h payload sg pub)) /\
    sign_label.mls_content
    = [x4d; x4c; x53; x20; x31; x2e; x30; x20; x4d; x4c; x53; x43; x6f;
       x6e; x74; x65; x6e; x74; x54; x42; x53] /\
    sign_label.leaf_node
    = [x4d; x4c; x53; x20; x31; x2e; x30; x20; x4c; x65; x61; x66; x4e;
       x6f; x64; x65; x54; x42; x53] /\
    sign_label.key_package
    = [x4d; x4c; x53; x20; x31; x2e; x30; x20; x4b; x65; x79; x50; x61;
       x63; x6b; x61; x67; x65; x54; x42; x53] /\
    sign_label.group_info
    = [x4d; x4c; x53; x20; x31; x2e; x30; x20; x47; x72; x6f; x75; x70;
       x49; x6e; x66; x6f; x54; x42; x53].
Proof.
  intros Hs. destruct (supported_get s Hs) as [c Hc].
  exists c. split; [exact Hc|].
  cbv zeta.
  assert (Hm : SignContent.marshal {| SignContent.label := label;
                                      SignContent.content := message |}
               = (tls.varint (size label) ++ label
                  ++ tls.varint (size message) ++ message)%list).
  { unfold SignContent.marshal, tls.opaque.
    cbn [SignContent.label SignContent.content].
    rewrite <- app_assoc. reflexivity. }
  split; [exact Hm|].
  split; [|split].
  - unfold SignaturePrivateKey.sign, CipherSuite.sig.
    rewrite Hc, Hm. cbn [bind].
    destruct (Signature.deserialize_private _ _); reflexivity.
  - unfold SignaturePublicKey.verify, CipherSuite.sig.
    rewrite Hc, Hm. cbn [bind].
    destruct (Signature.deserialize _ _); reflexivity.
  - repeat split; reflexivity.
Qed.

End SignedContent.

Lemma sign_verify_payload_witness :
  exists c,
    CipherSuite.get Toy.suite1 = Ok c /\
    @SignaturePrivateKey.sign Toy.primitives
      (SignaturePrivateKey.make [x07] [x16]) Toy.suite1
      sign_label.leaf_node [x01]
    = Ok (Signature.sign (@sig_get Toy.primitives (Ciphers.sig c))
            (tls.opaque sign_label.leaf_node ++ tls.opaque [x01]) x07).
Proof.
  destruct (@sign_verify_payload Toy.primitives Toy.suite1
              (SignaturePrivateKey.make [x07] [x16])
              {| SignaturePublicKey.data := [x16] |}
              sign_label.leaf_node [x01] [])
    as [c [Hc [_ [Hsign _]]]].
  - simpl. tauto.
  - exists c. split; [exact Hc|]. rewrite Hsign. reflexivity.
Defined.

(** ** The small instance keeps the laws *)

Lemma toy_kdf_expand_length : @KDF_expand_length Toy.primitives.
Proof.
  intros i prk info L HL. unfold size. simpl.
  rewrite length_map, length_seq. apply Z2Nat.id. exact HL.
Qed.

Lemma toy_mul_base (a b : byte) :
  Toy.mul a (Toy.mul b Toy.base) = Toy.mul b (Toy.mul a Toy.base).
Proof.
  unfold Toy.mul. rewrite !byte_val_u8. apply u8_congr.
  rewrite !Z.mul_mod_idemp_r by lia. f_equal. ring.
Qed.

Lemma toy_kem_correct : @KEM_correct Toy.primitives.
Proof. intros i rnd sk. simpl. f_equal. apply toy_mul_base. Qed.

Lemma toy_kem_private_roundtrip : @KEM_private_roundtrip Toy.primitives.
Proof. intros i sk. reflexivity. Qed.

Lemma toy_kem_public_roundtrip : @KEM_public_roundtrip Toy.primitives.
Proof. intros i pk. reflexivity. Qed.

Lemma toy_aead_correct : @AEAD_correct Toy.primitives.
Proof.
  intros i key nonce aad pt. simpl.
  destruct (Byte.eqb _ _) eqn:E; [reflexivity|].
  apply Byte.eqb_false in E. congruence.
Qed.

Lemma toy_sig_private_roundtrip : @Sig_private_roundtrip Toy.primitives.
Proof. intros i sk. reflexivity. Qed.

Lemma toy_sig_public_roundtrip : @Sig_public_roundtrip Toy.primitives.
Proof. intros i pk. reflexivity. Qed.

Lemma toy_sig_correct : @Sig_correct Toy.primitives.
Proof.
  intros i msg sk.
  exact (bytes_eqb_refl [Toy.tag (Toy.sig_public sk :: msg)]).
Qed.

Section References.
Context `{P : Primitives}.
Hypothesis Hlen : KDF_expand_length.

(** C9.  For a supported ciphersuite, [make_reference] is
    [KDF.expand(KDF.extract("", marshal(value)), label_T, 16)] with the KDF of
    the suite, it is 16 octets long whatever the KDF, and label_T is the
    ASCII octets of "MLS 1.0 KeyPackage Reference" for a KeyPackage and of
    "MLS 1.0 Proposal Reference" for an MLSAuthenticatedContent. *)
Theorem make_reference_spec
    (s : CipherSuite.t) (T : RefType) (marshaled : bytes) :
  In (CipherSuite.id s) CipherSuite.all_supported_suites ->
  exists c,
    CipherSuite.get s = Ok c /\
    let kdf := kdf_get (HPKE.kdf_id (Ciphers.hpke c)) in
    let label_T :=
      match T with
      | KeyPackage =>
        [x4d; x4c; x53; x20; x31; x2e; x30; x20; x4b; x65; x79; x50; x61;
         x63; x6b; x61; x67; x65; x20; x52; x65; x66; x65; x72; x65; x6e;
         x63; x65]
      | MLSAuthenticatedContent =>
        [x4d; x4c; x53; x20; x31; x2e; x30; x20; x50; x72; x6f; x70; x6f;
         x73; x61; x6c; x20; x52; x65; x66; x65; x72; x65; x6e; x63; x65]
      end in
    let ref := KDF.expand kdf (KDF.extract kdf [] marshaled) label_T 16 in
    CipherSuite.reference_label T = label_T /\
    CipherSuite.make_reference s T marshaled = Ok ref /\
    size ref = 16.
Proof.
  intros Hs. destruct (supported_get s Hs) as [c Hc].
  exists c. split; [exact Hc|]. cbv zeta.
  split; [destruct T; reflexivity|]. split.
  - unfold CipherSuite.make_reference, CipherSuite.hpke.
    rewrite Hc. cbn [bind]. unfold HPKE.kdf, CipherSuite.reference_size.
    destruct T; reflexivity.
  - apply Hlen. lia.
Qed.

End References.

Lemma make_reference_spec_witness :
  exists r,
    @CipherSuite.make_reference Toy.primitives Toy.suite1 KeyPackage
      [x01; x02; x03] = Ok r /\
    size r = 16.
Proof.
  destruct (@make_reference_spec Toy.primitives toy_kdf_expand_length
              Toy.suite1 KeyPackage [x01; x02; x03])
    as [c [Hc [_ [Href Hsize]]]].
  - simpl. tauto.
  - eexists. split; [exact Href | exact Hsize].
Defined.

(** ** HPKE keys *)

Section Decrypt.
Context `{P : Primitives}.

(** With the bundle and the private key in hand, [decrypt] is decided by what
    the AEAD makes of the ciphertext. *)
Lemma decrypt_by_open
    (self : HPKEPrivateKey.t) (s : CipherSuite.t) (info aad : bytes)
    (ct : HPKECiphertext.t) (c : Ciphers.t) (skR : KEMPrivateKey) :
  CipherSuite.get s = Ok c ->
  KEM.deserialize_private (HPKE.kem (Ciphers.hpke c))
    (HPKEPrivateKey.data self) = Ok skR ->
  let ctx := HPKE.setup_base_r (Ciphers.hpke c)
               (HPKECiphertext.kem_output ct) skR info in
  HPKEPrivateKey.decrypt self s info aad ct
  = match AEAD.open (HPKE.aead (Ciphers.hpke c)) (HPKE.key ctx)
            (HPKE.compute_nonce ctx) aad (HPKECiphertext.ciphertext ct) with
    | Some pt => Ok pt
    | None => Err (InvalidParameterError "HPKE decryption failure")
    end.
Proof.
  intros Hc Hsk ctx.
  unfold HPKEPrivateKey.decrypt, CipherSuite.hpke.
  rewrite Hc. cbn [bind]. rewrite Hsk. cbn [bind].
  fold ctx. unfold HPKE.open. cbn [HPKE.suite].
  replace (HPKE.suite ctx) with (Ciphers.hpke c) by reflexivity.
  destruct (AEAD.open _ _ _ _ _); reflexivity.
Qed.

(** C1.  For a ciphersuite whose bundle [get] returns (every supported one)
    and a private key that deserializes, [decrypt] fails with the decryption
    failure, [InvalidParameterError] with the message "HPKE decryption
    failure", exactly when the AEAD opens the ciphertext to no plaintext
    under the given info and aad. *)
Theorem decrypt_fails_when_open_fails
    (self : HPKEPrivateKey.t) (s : CipherSuite.t) (info aad : bytes)
    (ct : HPKECiphertext.t) (c : Ciphers.t) (skR : KEMPrivateKey) :
  CipherSuite.get s = Ok c ->
  KEM.deserialize_private (HPKE.kem (Ciphers.hpke c))
    (HPKEPrivateKey.data self) = Ok skR ->
  let ctx := HPKE.setup_base_r (Ciphers.hpke c)
               (HPKECiphertext.kem_output ct) skR info in
  AEAD.open (HPKE.aead (Ciphers.hpke c)) (HPKE.key ctx)
    (HPKE.compute_nonce ctx) aad (HPKECiphertext.ciphertext ct) = None
  <-> HPKEPrivateKey.decrypt self s info aad ct = Err HPKEDecryptionError.
Proof.
  intros Hc Hsk ctx.
  rewrite (decrypt_by_open self s info aad ct c skR Hc Hsk).
  fold ctx.
  destruct (AEAD.open _ _ _ _ _) as [pt|].
  - split; discriminate.
  - split; reflexivity.
Qed.

End Decrypt.

Lemma decrypt_fails_when_open_fails_witness :
  @HPKEPrivateKey.decrypt Toy.primitives Toy.hpke_key Toy.suite1 [] []
    Toy.forged
  = Err (InvalidParameterError "HPKE decryption failure").
Proof.
  apply (@decrypt_fails_when_open_fails Toy.primitives Toy.hpke_key
           Toy.suite1 [] [] Toy.forged
           CipherSuite.ciphers_X25519_AES128GCM_SHA256_Ed25519 x07).
  - reflexivity.
  - reflexivity.
  - vm_compute. reflexivity.
Defined.

Section RoundTrips.
Context `{P : Primitives}.

Section HPKERoundTrip.
Hypothesis Hpriv : KEM_private_roundtrip.
Hypothesis Hpub : KEM_public_roundtrip.
Hypothesis Hkem : KEM_correct.
Hypothesis Haead : AEAD_correct.

(** C2.  For a supported ciphersuite and any info, aad and pt: [generate]
    returns a key pair, [encrypt] to its public half returns a ciphertext,
    and [decrypt] of that ciphertext under the same info and aad returns pt.
    The primitives are assumed to keep their contracts. *)
Theorem hpke_round_trip
    (s : CipherSuite.t) (rnd_key rnd_encap info aad pt : bytes) :
  In (CipherSuite.id s) CipherSuite.all_supported_suites ->
  exists sk ct,
    HPKEPrivateKey.generate s rnd_key = Ok sk /\
    HPKEPublicKey.encrypt (HPKEPrivateKey.public_key sk) s rnd_encap
      info aad pt = Ok ct /\
    HPKEPrivateKey.decrypt sk s info aad ct = Ok pt.
Proof.
  intros Hs. destruct (supported_get s Hs) as [c Hc].
  set (h := Ciphers.hpke c).
  set (priv := KEM.generate_key_pair (HPKE.kem h) rnd_key).
  set (pub := KEM.public_key (HPKE.kem h) priv).
  pose proof (Hkem (HPKE.kem_id h) rnd_encap priv) as Hdec.
  fold (HPKE.kem h) in Hdec. fold pub in Hdec.
  destruct (KEM.encap (HPKE.kem h) rnd_encap pub) as [enc shared] eqn:Eencap.
  cbn [fst snd] in Hdec.
  exists (HPKEPrivateKey.make (KEM.serialize_private (HPKE.kem h) priv)
                              (KEM.serialize (HPKE.kem h) pub)).
  exists {| HPKECiphertext.kem_output := enc;
            HPKECiphertext.ciphertext :=
              fst (HPKE.seal (HPKE.schedule h shared info) aad pt) |}.
  split; [|split].
  - unfold HPKEPrivateKey.generate, CipherSuite.hpke.
    rewrite Hc. reflexivity.
  - unfold HPKEPublicKey.encrypt, CipherSuite.hpke.
    rewrite Hc. cbn [bind]. fold h.
    cbn [HPKEPrivateKey.public_key HPKEPrivateKey.make HPKEPublicKey.data].
    unfold HPKE.kem at 1 2. rewrite Hpub. cbn [bind].
    unfold HPKE.setup_base_s. fold (HPKE.kem h). rewrite Eencap.
    reflexivity.
  - rewrite (decrypt_by_open _ s info aad _ c priv Hc).
    + fold h. cbn [HPKECiphertext.kem_output HPKECiphertext.ciphertext].
      unfold HPKE.setup_base_r. rewrite Hdec.
      unfold HPKE.seal. cbn [fst].
      unfold HPKE.aead.
      replace (HPKE.suite (HPKE.schedule h shared info)) with h
        by reflexivity.
      rewrite Haead. reflexivity.
    + fold h. cbn [HPKEPrivateKey.data HPKEPrivateKey.make].
      unfold HPKE.kem. apply Hpriv.
Qed.

End HPKERoundTrip.
End RoundTrips.

Lemma hpke_round_trip_witness :
  exists sk ct,
    @HPKEPrivateKey.generate Toy.primitives Toy.suite1 [x01; x02] = Ok sk /\
    @HPKEPublicKey.encrypt Toy.primitives (HPKEPrivateKey.public_key sk)
      Toy.suite1 [x09] [x69] [x61] [x70; x74] = Ok ct /\
    @HPKEPrivateKey.decrypt Toy.primitives sk Toy.suite1 [x69] [x61] ct
    = Ok [x70; x74].
Proof.
  apply (@hpke_round_trip Toy.primitives toy_kem_private_roundtrip
           toy_kem_public_roundtrip toy_kem_correct toy_aead_correct
           Toy.suite1).
  simpl. tauto.
Defined.

(** ** Signature keys *)

Section SignatureRoundTrip.
Context `{P : Primitives}.
Hypothesis Hpriv : Sig_private_roundtrip.
Hypothesis Hpub : Sig_public_roundtrip.
Hypothesis Hsig : Sig_correct.

(** C6.  For a supported ciphersuite and any label and message: [generate]
    returns a key pair, [sign] with it returns a signature, and [verify]
    with its public half accepts that signature for the same label and
    message.  The primitives are assumed to keep their contracts. *)
Theorem signature_round_trip
    (s : CipherSuite.t) (rnd label msg : bytes) :
  In (CipherSuite.id s) CipherSuite.all_supported_suites ->
  exists sk sg,
    SignaturePrivateKey.generate s rnd = Ok sk /\
    SignaturePrivateKey.sign sk s label msg = Ok sg /\
    SignaturePublicKey.verify (SignaturePrivateKey.public_key sk) s
      label msg sg = Ok true.
Proof.
  intros Hs. destruct (supported_get s Hs) as [c Hc].
  set (h := sig_get (Ciphers.sig c)).
  set (priv := Signature.generate_key_pair h rnd).
  set (content := SignContent.marshal {| SignContent.label := label;
                                         SignContent.content := msg |}).
  exists (SignaturePrivateKey.make
            (Signature.serialize_private h priv)
            (Signature.serialize h (Signature.public_key h priv))).
  exists (Signature.sign h content priv).
  split; [|split].
  - unfold SignaturePrivateKey.generate, CipherSuite.sig.
    rewrite Hc. reflexivity.
  - unfold SignaturePrivateKey.sign, CipherSuite.sig.
    rewrite Hc. cbn [bind]. fold h.
    cbn [SignaturePrivateKey.data SignaturePrivateKey.make].
    unfold h at 1 2. rewrite Hpriv. reflexivity.
  - unfold SignaturePublicKey.verify, CipherSuite.sig.
    rewrite Hc. cbn [bind]. fold h.
    cbn [SignaturePrivateKey.public_key SignaturePrivateKey.make
         SignaturePublicKey.data].
    unfold h at 1 2. rewrite Hpub. cbn [bind]. fold h. fold content.
    unfold h. rewrite Hsig. reflexivity.
Qed.

End SignatureRoundTrip.

Lemma signature_round_trip_witness :
  exists sk sg,
    @SignaturePrivateKey.generate Toy.primitives Toy.suite1 [x01; x02]
    = Ok sk /\
    @SignaturePrivateKey.sign Toy.primitives sk Toy.suite1
      (from_ascii "label") [x01; x02; x03; x04] = Ok sg /\
    @SignaturePublicKey.verify Toy.primitives
      (SignaturePrivateKey.public_key sk) Toy.suite1
      (from_ascii "label") [x01; x02; x03; x04] sg = Ok true.
Proof.
  apply (@signature_round_trip Toy.primitives toy_sig_private_roundtrip
           toy_sig_public_roundtrip toy_sig_correct Toy.suite1).
  simpl. tauto.
Defined.

(** ** Consistency of key pairs *)

Section Consistency.
Context `{P : Primitives}.
Hypothesis Hkem : KEM_private_roundtrip.
Hypothesis Hsig : Sig_private_roundtrip.

(** C7.  For a supported ciphersuite, every private key that [generate],
    [derive] or [parse] returns, for HPKE and for signatures alike, stores as
    [public_key] the serialization of the public key derived from its stored
    private octets; [generate] and [derive] do return a key.  Private keys
    are assumed to survive their serialization. *)
Theorem private_keys_consistent (s : CipherSuite.t) :
  In (CipherSuite.id s) CipherSuite.all_supported_suites ->
  (forall rnd, exists k,
      HPKEPrivateKey.generate s rnd = Ok k /\
      HPKEPrivateKey.rederive_public k s
      = Ok (HPKEPublicKey.data (HPKEPrivateKey.public_key k))) /\
  (forall secret, exists k,
      HPKEPrivateKey.derive s secret = Ok k /\
      HPKEPrivateKey.rederive_public k s
      = Ok (HPKEPublicKey.data (HPKEPrivateKey.public_key k))) /\
  (forall data k,
      HPKEPrivateKey.parse s data = Ok k ->
      HPKEPrivateKey.data k = data /\
      HPKEPrivateKey.rederive_public k s
      = Ok (HPKEPublicKey.data (HPKEPrivateKey.public_key k))) /\
  (forall rnd, exists k,
      SignaturePrivateKey.generate s rnd = Ok k /\
      SignaturePrivateKey.rederive_public k s
      = Ok (SignaturePublicKey.data (SignaturePrivateKey.public_key k))) /\
  (forall secret, exists k,
      SignaturePrivateKey.derive s secret = Ok k /\
      SignaturePrivateKey.rederive_public k s
      = Ok (SignaturePublicKey.data (SignaturePrivateKey.public_key k))) /\
  (forall data k,
      SignaturePrivateKey.parse s data = Ok k ->
      SignaturePrivateKey.data k = data /\
      SignaturePrivateKey.rederive_public k s
      = Ok (SignaturePublicKey.data (SignaturePrivateKey.public_key k))).
Proof.
  intros Hs. destruct (supported_get s Hs) as [c Hc].
  repeat split.
  - intros rnd. eexists. split.
    + unfold HPKEPrivateKey.generate, CipherSuite.hpke.
      rewrite Hc. reflexivity.
    + unfold HPKEPrivateKey.rederive_public, CipherSuite.hpke.
      rewrite Hc. cbn [bind HPKEPrivateKey.data HPKEPrivateKey.make].
      unfold HPKE.kem. rewrite Hkem. reflexivity.
  - intros secret. eexists. split.
    + unfold HPKEPrivateKey.derive, CipherSuite.hpke.
      rewrite Hc. reflexivity.
    + unfold HPKEPrivateKey.rederive_public, CipherSuite.hpke.
      rewrite Hc. cbn [bind HPKEPrivateKey.data HPKEPrivateKey.make].
      unfold HPKE.kem. rewrite Hkem. reflexivity.
  - revert H. unfold HPKEPrivateKey.parse, CipherSuite.hpke.
    rewrite Hc. cbn [bind].
    destruct (KEM.deserialize_private _ _); cbn [bind]; [|discriminate].
    intros E. injection E as <-. reflexivity.
  - revert H. unfold HPKEPrivateKey.parse, HPKEPrivateKey.rederive_public,
      CipherSuite.hpke.
    rewrite Hc. cbn [bind].
    destruct (KEM.deserialize_private _ _) eqn:E; cbn [bind]; [|discriminate].
    intros E'. injection E' as <-.
    cbn [HPKEPrivateKey.data HPKEPrivateKey.make]. rewrite E. reflexivity.
  - intros rnd. eexists. split.
    + unfold SignaturePrivateKey.generate, CipherSuite.sig.
      rewrite Hc. reflexivity.
    + unfold SignaturePrivateKey.rederive_public, CipherSuite.sig.
      rewrite Hc.
      cbn [bind SignaturePrivateKey.data SignaturePrivateKey.make].
      rewrite Hsig. reflexivity.
  - intros secret. eexists. split.
    + unfold SignaturePrivateKey.derive, CipherSuite.sig.
      rewrite Hc. reflexivity.
    + unfold SignaturePrivateKey.rederive_public, CipherSuite.sig.
      rewrite Hc.
      cbn [bind SignaturePrivateKey.data SignaturePrivateKey.make].
      rewrite Hsig. reflexivity.
  - revert H. unfold SignaturePrivateKey.parse, CipherSuite.sig.
    rewrite Hc. cbn [bind].
    destruct (Signature.deserialize_private _ _); cbn [bind]; [|discriminate].
    intros E. injection E as <-. reflexivity.
  - revert H. unfold SignaturePrivateKey.parse,
      SignaturePrivateKey.rederive_public, CipherSuite.sig.
    rewrite Hc. cbn [bind].
    destruct (Signature.deserialize_private _ _) eqn:E; cbn [bind];
      [|discriminate].
    intros E'. injection E' as <-.
    cbn [SignaturePrivateKey.data SignaturePrivateKey.make].
    rewrite E. reflexivity.
Qed.

End Consistency.

Lemma private_keys_consistent_witness :
  (exists k,
      @HPKEPrivateKey.generate Toy.primitives Toy.suite1 [x01; x02] = Ok k /\
      @HPKEPrivateKey.rederive_public Toy.primitives k Toy.suite1
      = Ok (HPKEPublicKey.data (HPKEPrivateKey.public_key k))) /\
  (exists k,
      @SignaturePrivateKey.derive Toy.primitives Toy.suite1
        [x00; x01; x02; x03] = Ok k /\
      @SignaturePrivateKey.rederive_public Toy.primitives k Toy.suite1
      = Ok (SignaturePublicKey.data (SignaturePrivateKey.public_key k))).
Proof.
  destruct (@private_keys_consistent Toy.primitives
              toy_kem_private_roundtrip toy_sig_private_roundtrip Toy.suite1)
    as [Hgen [_ [_ [_ [Hder _]]]]].
  - simpl. tauto.
  - split; [apply Hgen | apply Hder].
Defined.

(** * Further properties of the code *)

(** ** Reading back what the codec writes *)

Lemma lor_pow2_add (k n : Z) :
  0 <= k -> 0 <= n < 2 ^ k -> Z.lor (2 ^ k) n = 2 ^ k + n.
Proof.
  intros Hk Hn.
  rewrite <- Z.add_lor_land.
  assert (E : Z.land (2 ^ k) n = 0).
  { apply Z.bits_inj'. intros m Hm.
    rewrite Z.land_spec, Z.bits_0, Z.pow2_bits_eqb by exact Hk.
    destruct (Z.eqb_spec k m) as [->|Hne]; [|reflexivity].
    cbn [andb]. rewrite <- (Z.mod_small n (2 ^ m)) by exact Hn.
    apply Z.mod_pow2_bits_high. lia. }
  rewrite E. lia.
Qed.

Lemma read_varint_varint (n : Z) (rest : bytes) :
  0 <= n < 2 ^ 30 ->
  tls_read.varint (tls.varint n ++ rest) = Ok (n, rest).
Proof.
  intros Hn. unfold tls.varint.
  destruct (Z.ltb_spec n 64) as [H1|H1].
  - cbn [tls.uint app]. rewrite Z.shiftr_0_r.
    unfold tls_read.varint. rewrite byte_val_u8, Z.mod_small by lia.
    destruct (Z.ltb_spec n 64); [reflexivity|lia].
  - destruct (Z.ltb_spec n 16384) as [H2|H2].
    + change 0x4000 with (2 ^ 14). rewrite lor_pow2_add by lia.
      cbn [tls.uint app]. rewrite Z.shiftr_0_r.
      change (8 * Z.of_nat 1) with 8. rewrite Z.shiftr_div_pow2 by lia.
      unfold tls_read.varint. rewrite !byte_val_u8.
      change (2 ^ 14) with 16384. change (2 ^ 8) with 256.
      assert (Hv : ((16384 + n) / 256) mod 256 = 64 + n / 256).
      { Z.div_mod_to_equations. lia. }
      rewrite Hv.
      destruct (Z.ltb_spec (64 + n / 256) 64) as [A|A];
        [Z.div_mod_to_equations; lia|].
      destruct (Z.ltb_spec (64 + n / 256) 128) as [B|B];
        [|Z.div_mod_to_equations; lia].
      do 2 f_equal. Z.div_mod_to_equations. lia.
    + rewrite (Z.mod_small n (2 ^ 30)) by lia.
      change 0x80000000 with (2 ^ 31). rewrite lor_pow2_add by lia.
      cbn [tls.uint app]. rewrite Z.shiftr_0_r.
      change (8 * Z.of_nat 3) with 24. change (8 * Z.of_nat 2) with 16.
      change (8 * Z.of_nat 1) with 8.
      rewrite !Z.shiftr_div_pow2 by lia.
      unfold tls_read.varint. rewrite !byte_val_u8.
      change (2 ^ 31) with 2147483648. change (2 ^ 30) with 1073741824 in Hn.
      change (2 ^ 24) with 16777216. change (2 ^ 16) with 65536.
      change (2 ^ 8) with 256.
      assert (Hv : ((2147483648 + n) / 16777216) mod 256
                   = 128 + n / 16777216).
      { Z.div_mod_to_equations. lia. }
      rewrite Hv.
      destruct (Z.ltb_spec (128 + n / 16777216) 64) as [A|A];
        [Z.div_mod_to_equations; lia|].
      destruct (Z.ltb_spec (128 + n / 16777216) 128) as [B|B];
        [Z.div_mod_to_equations; lia|].
      destruct (Z.ltb_spec (128 + n / 16777216) 192) as [C|C];
        [|Z.div_mod_to_equations; lia].
      do 2 f_equal. Z.div_mod_to_equations. lia.
Qed.

Lemma read_opaque_opaque (b rest : bytes) :
  size b < 2 ^ 30 ->
  tls_read.opaque (tls.opaque b ++ rest) = Ok (b, rest).
Proof.
  intros Hb. unfold tls.opaque, tls_read.opaque.
  rewrite <- app_assoc.
  rewrite read_varint_varint by (unfold size in *; lia).
  cbn [bind]. unfold size at 2. rewrite length_app.
  destruct (Z.leb_spec (size b) (Z.of_nat (List.length b + List.length rest)))
    as [_|H]; [|unfold size in H; lia].
  unfold size. rewrite Nat2Z.id.
  rewrite firstn_app, Nat.sub_diag, firstn_all, firstn_O, app_nil_r.
  rewrite skipn_app, Nat.sub_diag, skipn_all, skipn_O.
  reflexivity.
Qed.

Lemma opaque_app_inj (a b r1 r2 : bytes) :
  size a < 2 ^ 30 -> size b < 2 ^ 30 ->
  (tls.opaque a ++ r1 = tls.opaque b ++ r2)%list -> a = b /\ r1 = r2.
Proof.
  intros Ha Hb E.
  pose proof (read_opaque_opaque a r1 Ha) as E1.
  rewrite E, (read_opaque_opaque b r2 Hb) in E1.
  injection E1 as -> ->. split; reflexivity.
Qed.

Lemma from_ascii_inj (a b : string) : from_ascii a = from_ascii b -> a = b.
Proof.
  unfold from_ascii. intros E.
  rewrite <- (string_of_list_byte_of_string a),
          <- (string_of_list_byte_of_string b), E.
  reflexivity.
Qed.

Lemma uint16_inj (m n : Z) :
  tls.uint16 m = tls.uint16 n -> m mod 2 ^ 16 = n mod 2 ^ 16.
Proof. intros E. rewrite <- !read_uint16, E. reflexivity. Qed.

(** X11.  A public key of less than 2^30 octets, HPKE or signature, comes
    back unchanged from [tls::get] of its [tls::marshal], as the two key
    serialization tests require. *)
Theorem public_key_tls_round_trip (d : bytes) :
  size d < 2 ^ 30 ->
  get_HPKEPublicKey (marshal_HPKEPublicKey {| HPKEPublicKey.data := d |})
  = Ok {| HPKEPublicKey.data := d |} /\
  get_SignaturePublicKey
    (marshal_SignaturePublicKey {| SignaturePublicKey.data := d |})
  = Ok {| SignaturePublicKey.data := d |}.
Proof.
  intros Hd.
  unfold get_HPKEPublicKey, marshal_HPKEPublicKey, get_SignaturePublicKey,
    marshal_SignaturePublicKey.
  cbn [HPKEPublicKey.data SignaturePublicKey.data].
  rewrite <- (app_nil_r (tls.opaque d)).
  rewrite (read_opaque_opaque d [] Hd). split; reflexivity.
Qed.

(** X9.  Two pairs of label and message, each part shorter than 2^30 octets,
    are marshalled to the same [SignContent] octets only when the labels are
    equal and the messages are equal: what [sign] and [verify] hand to the
    primitive separates the label from the message. *)
Theorem sign_content_injective (l1 m1 l2 m2 : bytes) :
  size l1 < 2 ^ 30 -> size m1 < 2 ^ 30 ->
  size l2 < 2 ^ 30 -> size m2 < 2 ^ 30 ->
  SignContent.marshal {| SignContent.label := l1; SignContent.content := m1 |}
  = SignContent.marshal {| SignContent.label := l2; SignContent.content := m2 |}
  -> l1 = l2 /\ m1 = m2.
Proof.
  intros Hl1 Hm1 Hl2 Hm2. unfold SignContent.marshal.
  cbn [SignContent.label SignContent.content]. intros E.
  apply opaque_app_inj in E; [|assumption..]. destruct E as [-> E].
  split; [reflexivity|].
  rewrite <- (app_nil_r (tls.opaque m1)), <- (app_nil_r (tls.opaque m2)) in E.
  apply opaque_app_inj in E; [|assumption..]. tauto.
Qed.

(** X10.  The label octets that [expand_with_label] builds for two calls
    coincide exactly when the two calls have the same label, the same context
    and lengths that agree modulo 2^16 (labels and contexts shorter than 2^30
    octets). *)
Theorem hkdf_label_collision_iff
    (l1 l2 : string) (c1 c2 : bytes) (L1 L2 : Z) :
  size (from_ascii ("mls10 " ++ l1)) < 2 ^ 30 ->
  size (from_ascii ("mls10 " ++ l2)) < 2 ^ 30 ->
  size c1 < 2 ^ 30 -> size c2 < 2 ^ 30 ->
  HKDFLabel.marshal {| HKDFLabel.length := L1 mod 2 ^ 16;
                       HKDFLabel.label := from_ascii ("mls10 " ++ l1);
                       HKDFLabel.context := c1 |}
  = HKDFLabel.marshal {| HKDFLabel.length := L2 mod 2 ^ 16;
                         HKDFLabel.label := from_ascii ("mls10 " ++ l2);
                         HKDFLabel.context := c2 |}
  <-> l1 = l2 /\ c1 = c2 /\ L1 mod 2 ^ 16 = L2 mod 2 ^ 16.
Proof.
  intros Hl1 Hl2 Hc1 Hc2. unfold HKDFLabel.marshal.
  cbn [HKDFLabel.length HKDFLabel.label HKDFLabel.context].
  split.
  - intros E.
    assert (E16 : tls.uint16 (L1 mod 2 ^ 16) = tls.uint16 (L2 mod 2 ^ 16)
                  /\ (tls.opaque (from_ascii ("mls10 " ++ l1))
                      ++ tls.opaque c1
                      = tls.opaque (from_ascii ("mls10 " ++ l2))
                        ++ tls.opaque c2)%list).
    { rewrite (uint16_octets (L1 mod 2 ^ 16)),
              (uint16_octets (L2 mod 2 ^ 16)) in E.
      pose proof (f_equal (firstn 2) E) as A.
      pose proof (f_equal (skipn 2) E) as B.
      cbn [firstn skipn app] in A, B.
      rewrite <- !uint16_octets in A. split; assumption. }
    destruct E16 as [EL E'].
    apply uint16_inj in EL. rewrite !Z.mod_mod in EL by lia.
    apply opaque_app_inj in E'; [|assumption..]. destruct E' as [El Ec].
    apply from_ascii_inj in El. injection El as ->.
    rewrite <- (app_nil_r (tls.opaque c1)), <- (app_nil_r (tls.opaque c2))
      in Ec.
    apply opaque_app_inj in Ec; [|assumption..]. tauto.
  - intros [-> [-> E]]. rewrite E. reflexivity.
Qed.

(** ** The registry, beyond the supported IDs *)

Lemma unsupported_get (s : CipherSuite.t) :
  CipherSuite.id s <> CipherSuite.unknown ->
  ~ In (CipherSuite.id s) CipherSuite.all_supported_suites ->
  CipherSuite.get s = Err (InvalidParameterError "Unsupported ciphersuite").
Proof.
  destruct s as [i]. cbn [CipherSuite.id]. intros H0 Hn.
  unfold CipherSuite.all_supported_suites in Hn. cbn [In] in Hn.
  unfold CipherSuite.get. cbn [CipherSuite.id].
  repeat match goal with
         | |- context [?a =? ?b] =>
           destruct (Z.eqb_spec a b); [exfalso; intuition congruence|]
         end.
  reflexivity.
Qed.

Lemma get_ok_supported (s : CipherSuite.t) (c : Ciphers.t) :
  CipherSuite.get s = Ok c ->
  In (CipherSuite.id s) CipherSuite.all_supported_suites.
Proof.
  intros Hc.
  destruct (in_dec Z.eq_dec (CipherSuite.id s)
              CipherSuite.all_supported_suites) as [Hin|Hout]; [exact Hin|].
  exfalso.
  destruct (Z.eq_dec (CipherSuite.id s) CipherSuite.unknown) as [H0|H0].
  - rewrite (unknown_get s H0) in Hc. discriminate.
  - rewrite (unsupported_get s H0 Hout) in Hc. discriminate.
Qed.

(** X1.  [get] sorts every ID into one of three cases: a supported ID has a
    bundle; [unknown] fails with "Uninitialized ciphersuite"; every other ID
    fails with "Unsupported ciphersuite". *)
Theorem get_classifies_ids (s : CipherSuite.t) :
  (In (CipherSuite.id s) CipherSuite.all_supported_suites /\
   exists c, CipherSuite.get s = Ok c) \/
  (CipherSuite.id s = CipherSuite.unknown /\
   CipherSuite.get s = Err (InvalidParameterError "Uninitialized ciphersuite")) \/
  (CipherSuite.id s <> CipherSuite.unknown /\
   ~ In (CipherSuite.id s) CipherSuite.all_supported_suites /\
   CipherSuite.get s = Err (InvalidParameterError "Unsupported ciphersuite")).
Proof.
  destruct (in_dec Z.eq_dec (CipherSuite.id s)
              CipherSuite.all_supported_suites) as [Hin|Hout].
  - left. split; [exact Hin | exact (supported_get s Hin)].
  - right. destruct (Z.eq_dec (CipherSuite.id s) CipherSuite.unknown) as [H0|H0].
    + left. split; [exact H0 | exact (unknown_get s H0)].
    + right. split; [exact H0|]. split; [exact Hout|].
      exact (unsupported_get s H0 Hout).
Qed.

(** X2.  [signature_scheme] returns a scheme for exactly the IDs for which
    [get] returns a bundle, and for every other ID, [unknown] included, it
    fails with "Unsupported algorithm". *)
Theorem signature_scheme_fails_with_get (s : CipherSuite.t) :
  ((exists sch, CipherSuite.signature_scheme s = Ok sch) <->
   (exists c, CipherSuite.get s = Ok c)) /\
  ((forall c, CipherSuite.get s <> Ok c) ->
   CipherSuite.signature_scheme s
   = Err (InvalidParameterError "Unsupported algorithm")).
Proof.
  destruct (in_dec Z.eq_dec (CipherSuite.id s)
              CipherSuite.all_supported_suites) as [Hin|Hout].
  - destruct (supported_get s Hin) as [c Hc].
    assert (Hs : exists sch, CipherSuite.signature_scheme s = Ok sch).
    { apply supported_cases in Hin. destruct s as [i]. cbn [CipherSuite.id] in *.
      unfold CipherSuite.signature_scheme. cbn [CipherSuite.id].
      destruct Hin as [H|[H|[H|[H|[H|H]]]]]; subst i; eexists; reflexivity. }
    split.
    + split; intros _; [exists c; exact Hc | exact Hs].
    + intros Hn. exfalso. exact (Hn c Hc).
  - assert (Hs : CipherSuite.signature_scheme s
                 = Err (InvalidParameterError "Unsupported algorithm")).
    { destruct s as [i]. cbn [CipherSuite.id] in *.
      unfold CipherSuite.all_supported_suites in Hout. cbn [In] in Hout.
      unfold CipherSuite.signature_scheme. cbn [CipherSuite.id].
      repeat match goal with
             | |- context [?a =? ?b] =>
               destruct (Z.eqb_spec a b); [exfalso; intuition congruence|]
             end.
      reflexivity. }
    assert (Hg : forall c, CipherSuite.get s <> Ok c).
    { intros c Hc.
      destruct (Z.eq_dec (CipherSuite.id s) CipherSuite.unknown) as [H0|H0].
      - rewrite (unknown_get s H0) in Hc. discriminate.
      - rewrite (unsupported_get s H0 Hout) in Hc. discriminate. }
    split.
    + split.
      * intros [sch E]. rewrite Hs in E. discriminate.
      * intros [c E]. exfalso. exact (Hg c E).
    + intros _. exact Hs.
Qed.

(** X3.  [tls_signature_scheme] never maps two signature algorithms to the
    same TLS signature scheme. *)
Theorem tls_signature_scheme_injective (a b : Signature.ID) :
  tls_signature_scheme a = tls_signature_scheme b -> a = b.
Proof. destruct a, b; cbn; intros E; first [reflexivity | discriminate]. Qed.

(** X4.  In every bundle [get] returns, the KDF and the digest name the same
    hash, and the KEM and the signature algorithm name the same curve:
    X25519 goes with Ed25519, P256 with P256, X448 with Ed448, P521 with
    P521. *)
Theorem registry_coherent (s : CipherSuite.t) (c : Ciphers.t) :
  CipherSuite.get s = Ok c ->
  let h := Ciphers.hpke c in
  (HPKE.kdf_id h = KDF.HKDF_SHA256 <-> Ciphers.digest c = Digest.SHA256) /\
  (HPKE.kdf_id h = KDF.HKDF_SHA512 <-> Ciphers.digest c = Digest.SHA512) /\
  (HPKE.kem_id h = KEM.DHKEM_X25519_SHA256 <-> Ciphers.sig c = Signature.Ed25519) /\
  (HPKE.kem_id h = KEM.DHKEM_P256_SHA256 <-> Ciphers.sig c = Signature.P256_SHA256) /\
  (HPKE.kem_id h = KEM.DHKEM_X448_SHA512 <-> Ciphers.sig c = Signature.Ed448) /\
  (HPKE.kem_id h = KEM.DHKEM_P521_SHA512 <-> Ciphers.sig c = Signature.P521_SHA512).
Proof.
  intros Hc. pose proof (get_ok_supported s c Hc) as Hin.
  apply supported_cases in Hin. destruct s as [i]. cbn [CipherSuite.id] in Hin.
  unfold CipherSuite.get in Hc. cbn [CipherSuite.id] in Hc.
  destruct Hin as [H|[H|[H|[H|[H|H]]]]]; subst i; cbn in Hc;
    injection Hc as <-; cbn; repeat split; intros; congruence.
Qed.

(** ** Keys whose public half is consistent *)

Section KeyExtras.
Context `{P : Primitives}.

(** What it takes for the stored public half to be the re-derived one. *)
Lemma hpke_consistent_inv (s : CipherSuite.t) (k : HPKEPrivateKey.t) :
  HPKEPrivateKey.rederive_public k s
  = Ok (HPKEPublicKey.data (HPKEPrivateKey.public_key k)) ->
  exists c priv,
    CipherSuite.get s = Ok c /\
    KEM.deserialize_private (HPKE.kem (Ciphers.hpke c))
      (HPKEPrivateKey.data k) = Ok priv /\
    HPKEPublicKey.data (HPKEPrivateKey.public_key k)
    = KEM.serialize (HPKE.kem (Ciphers.hpke c))
        (KEM.public_key (HPKE.kem (Ciphers.hpke c)) priv).
Proof.
  unfold HPKEPrivateKey.rederive_public, CipherSuite.hpke.
  destruct (CipherSuite.get s) as [c|e]; cbn [bind]; [|discriminate].
  destruct (KEM.deserialize_private _ _) as [priv|e] eqn:E; cbn [bind];
    [|discriminate].
  intros H. injection H as H. exists c, priv. repeat split; auto.
Qed.

Lemma sig_consistent_inv (s : CipherSuite.t) (k : SignaturePrivateKey.t) :
  SignaturePrivateKey.rederive_public k s
  = Ok (SignaturePublicKey.data (SignaturePrivateKey.public_key k)) ->
  exists c priv,
    CipherSuite.get s = Ok c /\
    Signature.deserialize_private (sig_get (Ciphers.sig c))
      (SignaturePrivateKey.data k) = Ok priv /\
    SignaturePublicKey.data (SignaturePrivateKey.public_key k)
    = Signature.serialize (sig_get (Ciphers.sig c))
        (Signature.public_key (sig_get (Ciphers.sig c)) priv).
Proof.
  unfold SignaturePrivateKey.rederive_public, CipherSuite.sig.
  destruct (CipherSuite.get s) as [c|e]; cbn [bind]; [|discriminate].
  destruct (Signature.deserialize_private _ _) as [priv|e] eqn:E; cbn [bind];
    [|discriminate].
  intros H. injection H as H. exists c, priv. repeat split; auto.
Qed.

(** X5.  An HPKE private key stores the public half re-derived from its
    private octets exactly when [parse] of its private octets returns the key
    itself. *)
Theorem hpke_parse_fixes_consistent (s : CipherSuite.t) (k : HPKEPrivateKey.t) :
  HPKEPrivateKey.rederive_public k s
  = Ok (HPKEPublicKey.data (HPKEPrivateKey.public_key k))
  <-> HPKEPrivateKey.parse s (HPKEPrivateKey.data k) = Ok k.
Proof.
  destruct k as [d [pd]].
  cbn [HPKEPrivateKey.data HPKEPrivateKey.public_key HPKEPublicKey.data].
  unfold HPKEPrivateKey.rederive_public, HPKEPrivateKey.parse,
    CipherSuite.hpke, HPKEPrivateKey.make.
  cbn [HPKEPrivateKey.data].
  destruct (CipherSuite.get s) as [c|e]; cbn [bind];
    [|split; discriminate].
  destruct (KEM.deserialize_private _ _) as [priv|e]; cbn [bind];
    [|split; discriminate].
  split; intros H; injection H as H; rewrite H; reflexivity.
Qed.

(** X6.  A signature private key stores the public half re-derived from its
    private octets exactly when [parse] of its private octets returns the key
    itself. *)
Theorem signature_parse_fixes_consistent
    (s : CipherSuite.t) (k : SignaturePrivateKey.t) :
  SignaturePrivateKey.rederive_public k s
  = Ok (SignaturePublicKey.data (SignaturePrivateKey.public_key k))
  <-> SignaturePrivateKey.parse s (SignaturePrivateKey.data k) = Ok k.
Proof.
  destruct k as [d [pd]].
  cbn [SignaturePrivateKey.data SignaturePrivateKey.public_key
       SignaturePublicKey.data].
  unfold SignaturePrivateKey.rederive_public, SignaturePrivateKey.parse,
    CipherSuite.sig, SignaturePrivateKey.make.
  cbn [SignaturePrivateKey.data].
  destruct (CipherSuite.get s) as [c|e]; cbn [bind];
    [|split; discriminate].
  destruct (Signature.deserialize_private _ _) as [priv|e]; cbn [bind];
    [|split; discriminate].
  split; intros H; injection H as H; rewrite H; reflexivity.
Qed.

Section ConsistentHPKE.
Hypothesis Hpub : KEM_public_roundtrip.
Hypothesis Hkem : KEM_correct.

(** X7.  For any HPKE private key whose stored public half is the one
    re-derived from its private octets (a parsed or derived key as well as a
    generated one), [encrypt] to the public half succeeds and [decrypt] gives
    the plaintext back.  The primitives are assumed to keep their
    contracts. *)
Theorem hpke_round_trip_consistent_key
    (Haead : AEAD_correct)
    (s : CipherSuite.t) (k : HPKEPrivateKey.t) (rnd info aad pt : bytes) :
  HPKEPrivateKey.rederive_public k s
  = Ok (HPKEPublicKey.data (HPKEPrivateKey.public_key k)) ->
  exists ct,
    HPKEPublicKey.encrypt (HPKEPrivateKey.public_key k) s rnd info aad pt
    = Ok ct /\
    HPKEPrivateKey.decrypt k s info aad ct = Ok pt.
Proof.
  intros Hk. destruct (hpke_consistent_inv s k Hk) as [c [priv [Hc [Hsk Hpk]]]].
  set (h := Ciphers.hpke c) in *.
  set (pub := KEM.public_key (HPKE.kem h) priv) in *.
  pose proof (Hkem (HPKE.kem_id h) rnd priv) as Hdec.
  fold (HPKE.kem h) in Hdec. fold pub in Hdec.
  destruct (KEM.encap (HPKE.kem h) rnd pub) as [enc shared] eqn:Eencap.
  cbn [fst snd] in Hdec.
  exists {| HPKECiphertext.kem_output := enc;
            HPKECiphertext.ciphertext :=
              fst (HPKE.seal (HPKE.schedule h shared info) aad pt) |}.
  split.
  - unfold HPKEPublicKey.encrypt, CipherSuite.hpke.
    rewrite Hc. cbn [bind]. fold h. rewrite Hpk.
    unfold HPKE.kem at 1 2. rewrite Hpub. cbn [bind].
    unfold HPKE.setup_base_s. fold (HPKE.kem h). fold pub. rewrite Eencap.
    reflexivity.
  - rewrite (decrypt_by_open k s info aad _ c priv Hc Hsk).
    fold h. cbn [HPKECiphertext.kem_output HPKECiphertext.ciphertext].
    unfold HPKE.setup_base_r. rewrite Hdec.
    unfold HPKE.seal. cbn [fst]. unfold HPKE.aead.
    replace (HPKE.suite (HPKE.schedule h shared info)) with h by reflexivity.
    rewrite Haead. reflexivity.
Qed.

(** X8.  For any HPKE private key whose stored public half is the one
    re-derived from its private octets, the sender's [do_export] succeeds and
    the receiver's [do_export] on the sender's KEM output returns the same
    exported secret. *)
Theorem hpke_export_agreement
    (s : CipherSuite.t) (k : HPKEPrivateKey.t) (rnd info : bytes)
    (label : string) (L : Z) :
  HPKEPrivateKey.rederive_public k s
  = Ok (HPKEPublicKey.data (HPKEPrivateKey.public_key k)) ->
  exists enc exported,
    HPKEPublicKey.do_export (HPKEPrivateKey.public_key k) s rnd info label L
    = Ok (enc, exported) /\
    HPKEPrivateKey.do_export k s info enc label L = Ok exported.
Proof.
  intros Hk. destruct (hpke_consistent_inv s k Hk) as [c [priv [Hc [Hsk Hpk]]]].
  set (h := Ciphers.hpke c) in *.
  set (pub := KEM.public_key (HPKE.kem h) priv) in *.
  pose proof (Hkem (HPKE.kem_id h) rnd priv) as Hdec.
  fold (HPKE.kem h) in Hdec. fold pub in Hdec.
  destruct (KEM.encap (HPKE.kem h) rnd pub) as [enc shared] eqn:Eencap.
  cbn [fst snd] in Hdec.
  exists enc.
  exists (HPKE.do_export (HPKE.schedule h shared info) (from_ascii label) L).
  split.
  - unfold HPKEPublicKey.do_export, CipherSuite.hpke.
    rewrite Hc. cbn [bind]. fold h. rewrite Hpk.
    unfold HPKE.kem at 1 2. rewrite Hpub. cbn [bind].
    unfold HPKE.setup_base_s. fold (HPKE.kem h). fold pub. rewrite Eencap.
    reflexivity.
  - unfold HPKEPrivateKey.do_export, CipherSuite.hpke.
    rewrite Hc. cbn [bind]. fold h. rewrite Hsk. cbn [bind].
    unfold HPKE.setup_base_r. rewrite Hdec. reflexivity.
Qed.

End ConsistentHPKE.

(** X12.  For any signature private key whose stored public half is the one
    re-derived from its private octets, [sign] succeeds and [verify] with the
    public half accepts the signature for the same label and message. *)
Theorem signature_round_trip_consistent_key
    (Hpub : Sig_public_roundtrip) (Hsig : Sig_correct)
    (s : CipherSuite.t) (k : SignaturePrivateKey.t) (label msg : bytes) :
  SignaturePrivateKey.rederive_public k s
  = Ok (SignaturePublicKey.data (SignaturePrivateKey.public_key k)) ->
  exists sg,
    SignaturePrivateKey.sign k s label msg = Ok sg /\
    SignaturePublicKey.verify (SignaturePrivateKey.public_key k) s
      label msg sg = Ok true.
Proof.
  intros Hk. destruct (sig_consistent_inv s k Hk) as [c [priv [Hc [Hsk Hpk]]]].
  set (h := sig_get (Ciphers.sig c)) in *.
  eexists. split.
  - unfold SignaturePrivateKey.sign, CipherSuite.sig.
    rewrite Hc. cbn [bind]. fold h. rewrite Hsk. reflexivity.
  - unfold SignaturePublicKey.verify, CipherSuite.sig.
    rewrite Hc. cbn [bind]. fold h. rewrite Hpk.
    unfold h at 1 2. rewrite Hpub. cbn [bind].
    unfold h. rewrite Hsig. reflexivity.
Qed.

(** X13.  For a supported ciphersuite, [derive_secret] succeeds, returns what
    [expand_with_label] returns for an empty context and the suite's
    [secret_size], and its output is [secret_size] octets long when the KDF
    returns as many octets as requested. *)
Theorem derive_secret_length
    (Hlen : KDF_expand_length)
    (Hsize : forall i, 0 <= Digest.hash_size (digest_get i))
    (s : CipherSuite.t) (secret : bytes) (label : string) :
  In (CipherSuite.id s) CipherSuite.all_supported_suites ->
  exists n out,
    CipherSuite.secret_size s = Ok n /\
    CipherSuite.derive_secret s secret label = Ok out /\
    CipherSuite.expand_with_label s secret label [] n = Ok out /\
    size out = n.
Proof.
  intros Hs. destruct (supported_get s Hs) as [c Hc].
  exists (Digest.hash_size (digest_get (Ciphers.digest c))).
  eexists.
  assert (Hn : CipherSuite.secret_size s
               = Ok (Digest.hash_size (digest_get (Ciphers.digest c)))).
  { unfold CipherSuite.secret_size. rewrite Hc. reflexivity. }
  split; [exact Hn|].
  unfold CipherSuite.derive_secret. rewrite Hn. cbn [bind].
  unfold CipherSuite.expand_with_label. rewrite Hc. cbn [bind].
  split; [reflexivity|]. split; [reflexivity|].
  apply Hlen. apply Hsize.
Qed.

End KeyExtras.

(** ** The JSON bridge *)

Section OptionalJson.
Variable T : Type.
Variable to_json_T : T -> json.t.
Variable from_json_T : json.t -> option T.
Hypothesis Hinner : forall x, from_json_T (to_json_T x) = Some x.

(** X14.  When the element type reads back what it writes, the serializer of
    [std::optional<T>] reads back every optional it writes exactly when no
    element is written as JSON null; a present element written as null reads
    back as absent. *)
Theorem optional_json_round_trip :
  (forall v,
      json.optional_from_json T from_json_T
        (json.optional_to_json T to_json_T v) = Some v)
  <-> (forall x, to_json_T x <> json.null).
Proof.
  split.
  - intros Hrt x Hnull.
    specialize (Hrt (Some x)).
    unfold json.optional_from_json, json.optional_to_json in Hrt.
    rewrite Hnull in Hrt. cbn [json.is_null] in Hrt. discriminate.
  - intros Hnn [x|]; [|reflexivity].
    unfold json.optional_from_json, json.optional_to_json.
    destruct (to_json_T x) eqn:E; cbn [json.is_null];
      try (rewrite <- E, Hinner; reflexivity).
    exfalso. exact (Hnn x E).
Qed.

End OptionalJson.

Lemma optional_json_round_trip_witness :
  (forall v : option Z,
      json.optional_from_json Z
        (fun j => match j with json.number n => Some n | _ => None end)
        (json.optional_to_json Z json.number v) = Some v)
  <-> (forall x : Z, json.number x <> json.null).
Proof.
  apply (optional_json_round_trip Z json.number
           (fun j => match j with json.number n => Some n | _ => None end)).
  intros x. reflexivity.
Defined.

(** X15.  A ciphersuite whose ID fits in 16 bits, supported or not and
    [unknown] included, is written to JSON without failure and read back
    unchanged. *)
Theorem ciphersuite_json_round_trip (s : CipherSuite.t) :
  0 <= CipherSuite.id s < 2 ^ 16 ->
  json.CipherSuite_from_json (json.CipherSuite_to_json s) = Some s.
Proof.
  intros H. destruct s as [i]. cbn [CipherSuite.id] in H.
  unfold json.CipherSuite_from_json, json.CipherSuite_to_json.
  cbn [CipherSuite.id]. rewrite Z.mod_small by exact H. reflexivity.
Qed.

Lemma ciphersuite_json_round_trip_witness :
  json.CipherSuite_from_json (json.CipherSuite_to_json CipherSuite.default)
  = Some CipherSuite.default.
Proof.
  apply (ciphersuite_json_round_trip CipherSuite.default).
  unfold CipherSuite.default, CipherSuite.unknown. cbn [CipherSuite.id]. lia.
Defined.

(** ** Instances of the properties above *)

Lemma toy_hash_size_nonneg :
  forall i, 0 <= Digest.hash_size (@digest_get Toy.primitives i).
Proof. intros i. cbn. lia. Qed.

Lemma tls_signature_scheme_injective_witness :
  Signature.Ed448 = Signature.Ed448.
Proof.
  apply (tls_signature_scheme_injective Signature.Ed448 Signature.Ed448).
  reflexivity.
Defined.

Lemma registry_coherent_witness :
  HPKE.kem_id
    (Ciphers.hpke CipherSuite.ciphers_P521_AES256GCM_SHA512_P521)
  = KEM.DHKEM_P521_SHA512
  <-> Ciphers.sig CipherSuite.ciphers_P521_AES256GCM_SHA512_P521
      = Signature.P521_SHA512.
Proof.
  apply (registry_coherent {| CipherSuite.id := 5 |}
           CipherSuite.ciphers_P521_AES256GCM_SHA512_P521).
  reflexivity.
Defined.

Lemma hpke_round_trip_consistent_key_witness :
  exists ct,
    @HPKEPublicKey.encrypt Toy.primitives
      (HPKEPrivateKey.public_key Toy.hpke_key) Toy.suite1
      [x09] [x69] [x61] [x70; x74] = Ok ct /\
    @HPKEPrivateKey.decrypt Toy.primitives Toy.hpke_key Toy.suite1
      [x69] [x61] ct = Ok [x70; x74].
Proof.
  apply (@hpke_round_trip_consistent_key Toy.primitives
           toy_kem_public_roundtrip toy_kem_correct toy_aead_correct
           Toy.suite1 Toy.hpke_key).
  reflexivity.
Defined.

Lemma hpke_export_agreement_witness :
  exists enc exported,
    @HPKEPublicKey.do_export Toy.primitives
      (HPKEPrivateKey.public_key Toy.hpke_key) Toy.suite1
      [x09] [x69] "exporter" 4 = Ok (enc, exported) /\
    @HPKEPrivateKey.do_export Toy.primitives Toy.hpke_key Toy.suite1
      [x69] enc "exporter" 4 = Ok exported.
Proof.
  apply (@hpke_export_agreement Toy.primitives
           toy_kem_public_roundtrip toy_kem_correct
           Toy.suite1 Toy.hpke_key).
  reflexivity.
Defined.

Lemma signature_round_trip_consistent_key_witness :
  exists sg,
    @SignaturePrivateKey.sign Toy.primitives
      (SignaturePrivateKey.make [x07] [x16]) Toy.suite1
      sign_label.key_package [x01; x02] = Ok sg /\
    @SignaturePublicKey.verify Toy.primitives
      (SignaturePrivateKey.public_key (SignaturePrivateKey.make [x07] [x16]))
      Toy.suite1 sign_label.key_package [x01; x02] sg = Ok true.
Proof.
  apply (@signature_round_trip_consistent_key Toy.primitives
           toy_sig_public_roundtrip toy_sig_correct Toy.suite1
           (SignaturePrivateKey.make [x07] [x16])).
  reflexivity.
Defined.

Lemma derive_secret_length_witness :
  exists n out,
    @CipherSuite.secret_size Toy.primitives Toy.suite1 = Ok n /\
    @CipherSuite.derive_secret Toy.primitives Toy.suite1 [x00; x01] "epoch"
    = Ok out /\
    @CipherSuite.expand_with_label Toy.primitives Toy.suite1 [x00; x01]
      "epoch" [] n = Ok out /\
    size out = n.
Proof.
  apply (@derive_secret_length Toy.primitives toy_kdf_expand_length
           toy_hash_size_nonneg Toy.suite1).
  cbn. tauto.
Defined.

Lemma public_key_tls_round_trip_witness :
  get_HPKEPublicKey
    (marshal_HPKEPublicKey {| HPKEPublicKey.data := [x23; x24] |})
  = Ok {| HPKEPublicKey.data := [x23; x24] |} /\
  get_SignaturePublicKey
    (marshal_SignaturePublicKey {| SignaturePublicKey.data := [x23; x24] |})
  = Ok {| SignaturePublicKey.data := [x23; x24] |}.
Proof.
  apply (public_key_tls_round_trip [x23; x24]).
  cbn. lia.
Defined.

Lemma sign_content_injective_witness :
  sign_label.leaf_node = sign_label.leaf_node /\ [x01] = [x01].
Proof.
  apply (sign_content_injective sign_label.leaf_node [x01]
           sign_label.leaf_node [x01]);
    try (cbn; lia).
  reflexivity.
Defined.

Lemma hkdf_label_collision_iff_witness :
  HKDFLabel.marshal {| HKDFLabel.length := 1 mod 2 ^ 16;
                       HKDFLabel.label := from_ascii ("mls10 " ++ "test");
                       HKDFLabel.context := [] |}
  = HKDFLabel.marshal {| HKDFLabel.length := 65537 mod 2 ^ 16;
                         HKDFLabel.label := from_ascii ("mls10 " ++ "test");
                         HKDFLabel.context := [] |}.
Proof.
  apply (hkdf_label_collision_iff "test" "test" [] [] 1 65537);
    try (cbn; lia).
  repeat split; reflexivity.
Defined.
